(** * Intcode: a shallow embedding of [solutions/2019/code/intcode.py]

    The Python class [IntcodeComputer] is embedded as a record together with
    a small state-and-exception monad.  Python integers are [Z]; the
    [defaultdict(int)] holding the program is a [gmap Z Z] whose reads
    materialise the key they miss, exactly as [defaultdict.__getitem__]
    does; the [inputs] iterator is the list of the items it has not yielded
    yet; an exception leaves the state as mutated up to the [raise]. *)

From Stdlib Require Import ZArith String Ascii List Lia.
From stdpp Require Import base option list gmap.

Local Open Scope Z_scope.

(** ** Python builtins used by the source *)

Module Py.

Definition digit_char (d : Z) : ascii := ascii_of_nat (48 + Z.to_nat d).

(** The decimal digits of [n >= 0] put in front of [acc], by repeated
    division; [fuel + 1] bounds the number of digits produced. *)
Fixpoint digits_of (fuel : nat) (n : Z) (acc : string) : string :=
  let acc' := String (digit_char (n mod 10)) acc in
  match fuel with
  | O => acc'
  | S fuel' => if n <? 10 then acc' else digits_of fuel' (n / 10) acc'
  end.

(** The text of [str(n)] for an [int]: decimal digits, a leading minus
    sign when negative.  A number has no more decimal digits than binary
    ones. *)
Definition str (n : Z) : string :=
  if n <? 0
  then String "-" (digits_of (Z.to_nat (Z.log2 (- n))) (- n) EmptyString)
  else digits_of (Z.to_nat (Z.log2 n)) n EmptyString.

(** [sys.int_max_str_digits]: since CPython 3.11 an [int] of more decimal
    digits, the sign not counted, is refused by [str]. *)
Definition int_max_str_digits : nat := 4300.

(** The least magnitude [str] refuses. *)
Definition max_rendered : Z := 10 ^ Z.of_nat int_max_str_digits.

(** [str(n)] as the interpreter runs it: [None] is [ValueError: Exceeds the
    limit (4300 digits) for integer string conversion]. *)
Definition str_limited (n : Z) : option string :=
  if (String.length (str (Z.abs n)) <=? int_max_str_digits)%nat
  then Some (str n)
  else None.

Fixpoint zeros (n : nat) : string :=
  match n with
  | O => EmptyString
  | S k => String "0"%char (zeros k)
  end.

(** [s.zfill(width)]: left-pads with ['0'] up to [width]; a leading sign
    stays in front of the padding. *)
Definition zfill (width : nat) (s : string) : string :=
  let fill := (width - String.length s)%nat in
  match fill with
  | O => s
  | _ =>
    match s with
    | String c r =>
      if (Ascii.eqb c "-" || Ascii.eqb c "+")%bool
      then String c (zeros fill ++ r)
      else (zeros fill ++ s)%string
    | EmptyString => zeros fill
    end
  end.

(** [s[i:]] for [0 <= i]. *)
Definition slice_from (i : nat) (s : string) : string :=
  substring i (String.length s - i) s.

Definition digit_of_ascii (c : ascii) : option Z :=
  let n := nat_of_ascii c in
  if ((48 <=? n)%nat && (n <=? 57)%nat)%bool
  then Some (Z.of_nat (n - 48))
  else None.

Fixpoint digits_value (acc : Z) (s : string) : option Z :=
  match s with
  | EmptyString => Some acc
  | String c r =>
    match digit_of_ascii c with
    | Some d => digits_value (10 * acc + d) r
    | None => None
    end
  end.

(** [int(s)] on the strings the source builds: an optional sign followed by
    at least one ASCII digit; [None] is Python's
    [ValueError: invalid literal for int() with base 10].  Those strings
    are pieces of a text [str] has rendered, so they stay below the digit
    limit of [int]. *)
Definition int (s : string) : option Z :=
  match s with
  | EmptyString => None
  | String c r =>
    if Ascii.eqb c "-" then
      match r with
      | EmptyString => None
      | _ => Z.opp <$> digits_value 0 r
      end
    else if Ascii.eqb c "+" then
      match r with
      | EmptyString => None
      | _ => digits_value 0 r
      end
    else digits_value 0 s
  end.

(** [enumerate(l)], with the index as a Python integer. *)
Fixpoint enumerate_from {A} (i : Z) (l : list A) : list (Z * A) :=
  match l with
  | [] => []
  | x :: r => (i, x) :: enumerate_from (i + 1) r
  end.

Definition enumerate {A} (l : list A) : list (Z * A) := enumerate_from 0 l.

(** [range(a, b)]. *)
Definition range (a b : Z) : list Z := seqZ a (b - a).

(** [l[:-1]] on a list. *)
Definition but_last {A} (l : list A) : list A := removelast l.

(** [bool(n)] for an optional [int]: [None] and [0] are false. *)
Definition truthy (n : option Z) : bool :=
  match n with
  | None => false
  | Some z => negb (z =? 0)
  end.

End Py.

(** ** Data model *)

(** The dataclass [Instruction]. *)
Record Instruction := mkInstruction { parameter : Z; mode : Z }.

(** The attributes of an [IntcodeComputer] instance.  [valid_opcodes] is the
    same constant set in every instance and is kept as a definition. *)
Record IntcodeComputer := mkComputer {
  program : gmap Z Z;
  output : list Z;
  pointer : Z;
  interactive : bool;
  inputs : list Z;
  relative_base : Z;
  debug : bool
}.

Definition valid_opcodes : list Z := [1; 2; 3; 4; 5; 6; 7; 8; 9; 99].

(** Python exceptions the class can raise. *)
Inductive exn :=
| ValueError_invalid_literal (s : string)
| ValueError_digit_limit
| ValueError_is_an_invalid_opcode (opcode : Z)
| ValueError_invalid_opcode (opcode : Z)
| ValueError_invalid_mode (i : Instruction)
| ValueError_max_empty
| StopIteration
| EOFError
| IndexError
| TypeError_provide_int
| RuntimeError_bad_diagnostic (codes : list Z).

(** Outcome of a call: a value, a raised exception, or [Timeout], which
    only [run] produces when the fuel given to its [while True] loop ends
    before the loop does. *)
Inductive result (A : Type) :=
| Ok (a : A)
| Raise (e : exn)
| Timeout.
Arguments Ok {A} a.
Arguments Raise {A} e.
Arguments Timeout {A}.

(** ** Instruction decoding *)

Definition index_char (i : nat) (s : string) : result string :=
  match String.get i s with
  | Some c => Ok (String c EmptyString)
  | None => Raise IndexError
  end.

Definition int_of (s : string) : result Z :=
  match Py.int s with
  | Some z => Ok z
  | None => Raise (ValueError_invalid_literal s)
  end.

Definition rbind {A B} (r : result A) (k : A -> result B) : result B :=
  match r with
  | Ok a => k a
  | Raise e => Raise e
  | Timeout => Timeout
  end.

Definition str_of (n : Z) : result string :=
  match Py.str_limited n with
  | Some s => Ok s
  | None => Raise ValueError_digit_limit
  end.

(** [parse_opcode]: [str(opcode)] comes first; the tuple's components are
    evaluated left to right. *)
Definition parse_opcode (opcode : Z) : result (Z * Z * Z * Z) :=
  rbind (str_of opcode) (fun text =>
  let padded := Py.zfill 5 text in
  rbind (int_of (Py.slice_from 3 padded)) (fun op =>
  rbind (rbind (index_char 2 padded) int_of) (fun m0 =>
  rbind (rbind (index_char 1 padded) int_of) (fun m1 =>
  rbind (rbind (index_char 0 padded) int_of) (fun m2 =>
  Ok (op, m0, m1, m2)))))).

Definition num_parameters (opcode : Z) : result Z :=
  if opcode =? 99 then Ok 0
  else if bool_decide (opcode ∈ [1; 2; 7; 8]) then Ok 3
  else if bool_decide (opcode ∈ [5; 6]) then Ok 2
  else if bool_decide (opcode ∈ [3; 4; 9]) then Ok 1
  else Raise (ValueError_invalid_opcode opcode).

(** ** The state monad of a method call

    [self] is the instance the method runs on; [stdin] holds the integers
    that successive [int(input("--> "))] calls will return (an empty list is
    end of file; a line that [int] rejects is not modelled, so statements
    about console input say what the console supplies and the others are
    about queued mode); [stores] is ghost state: the set of addresses that some
    assignment [self.program[k] = v] has written.  No operation reads
    [stores]. *)
Record state := mkState {
  self : IntcodeComputer;
  stdin : list Z;
  stores : gset Z
}.

Definition M (A : Type) : Type := state -> result A * state.

Definition ret {A} (a : A) : M A := fun st => (Ok a, st).

Definition raise {A} (e : exn) : M A := fun st => (Raise e, st).

Definition timeout {A} : M A := fun st => (Timeout, st).

Definition bind {A B} (m : M A) (k : A -> M B) : M B :=
  fun st =>
    match m st with
    | (Ok a, st') => k a st'
    | (Raise e, st') => (Raise e, st')
    | (Timeout, st') => (Timeout, st')
    end.

Definition lift {A} (r : result A) : M A := fun st => (r, st).

Definition gets {A} (f : IntcodeComputer -> A) : M A :=
  fun st => (Ok (f (self st)), st).

Definition modify (f : IntcodeComputer -> IntcodeComputer) : M unit :=
  fun st => (Ok tt, mkState (f (self st)) (stdin st) (stores st)).

Notation "'let!' x ':=' m 'in' k" := (bind m (fun x => k))
  (at level 10, x pattern, m at level 100, k at level 200).
Notation "m >> k" := (bind m (fun _ => k))
  (at level 90, right associativity).

(** Attribute assignments [self.f = v]. *)
Definition with_program (p : gmap Z Z) (c : IntcodeComputer) : IntcodeComputer :=
  mkComputer p (output c) (pointer c) (interactive c) (inputs c) (relative_base c) (debug c).
Definition with_output (o : list Z) (c : IntcodeComputer) : IntcodeComputer :=
  mkComputer (program c) o (pointer c) (interactive c) (inputs c) (relative_base c) (debug c).
Definition with_pointer (p : Z) (c : IntcodeComputer) : IntcodeComputer :=
  mkComputer (program c) (output c) p (interactive c) (inputs c) (relative_base c) (debug c).
Definition with_interactive (b : bool) (c : IntcodeComputer) : IntcodeComputer :=
  mkComputer (program c) (output c) (pointer c) b (inputs c) (relative_base c) (debug c).
Definition with_inputs (i : list Z) (c : IntcodeComputer) : IntcodeComputer :=
  mkComputer (program c) (output c) (pointer c) (interactive c) i (relative_base c) (debug c).
Definition with_relative_base (r : Z) (c : IntcodeComputer) : IntcodeComputer :=
  mkComputer (program c) (output c) (pointer c) (interactive c) (inputs c) r (debug c).
Definition with_debug (d : bool) (c : IntcodeComputer) : IntcodeComputer :=
  mkComputer (program c) (output c) (pointer c) (interactive c) (inputs c) (relative_base c) d.

(** [self.program[k]] read through [defaultdict(int)]: a missing key is
    inserted with value [0] and that value is returned. *)
Definition getitem (k : Z) : M Z :=
  fun st =>
    match program (self st) !! k with
    | Some v => (Ok v, st)
    | None =>
      (Ok 0, mkState (with_program (<[k := 0]> (program (self st))) (self st))
                     (stdin st) (stores st))
    end.

(** [self.program[k] = v]. *)
Definition setitem (k v : Z) : M unit :=
  fun st =>
    (Ok tt, mkState (with_program (<[k := v]> (program (self st))) (self st))
                    (stdin st) ({[k]} ∪ stores st)).

(** [l[i]] on a Python list: negative indices count from the end. *)
Definition item {A} (l : list A) (i : Z) : result A :=
  let n := Z.of_nat (length l) in
  let j := if i <? 0 then i + n else i in
  if (0 <=? j) && (j <? n) then
    match l !! Z.to_nat j with
    | Some x => Ok x
    | None => Raise IndexError
    end
  else Raise IndexError.

(** [for x in l: body(x)]. *)
Fixpoint for_each {A} (l : list A) (body : A -> M unit) : M unit :=
  match l with
  | [] => ret tt
  | x :: r => body x >> for_each r body
  end.

(** [[f(x) for x in l]]. *)
Fixpoint comprehension {A B} (l : list A) (f : A -> M B) : M (list B) :=
  match l with
  | [] => ret []
  | x :: r => let! y := f x in let! ys := comprehension r f in ret (y :: ys)
  end.

(** ** Methods of [IntcodeComputer] *)

(** [__init__]: the state right after construction, [console] being what
    the console will supply. *)
Definition blank : IntcodeComputer := mkComputer ∅ [] 0 false [] 0 false.

Definition init (prog : list Z) (inputs : option (list Z))
    (force_uninteractive debug : bool) (console : list Z) : state :=
  let st0 := mkState blank console ∅ in
  let st1 := snd (for_each (Py.enumerate prog) (fun '(index, i) => setitem index i) st0) in
  let not_inputs := match inputs with None | Some [] => true | _ => false end in
  let c := self st1 in
  let c := with_output [] c in
  let c := with_pointer 0 c in
  let c := with_interactive (not_inputs && negb force_uninteractive) c in
  let c := with_inputs (default [] inputs) c in
  let c := with_relative_base 0 c in
  let c := with_debug debug c in
  mkState c (stdin st1) (stores st1).

(** [copy]: [list(self.inputs)] runs the iterator of [self] to its end, and
    [self.inputs] is not reassigned afterwards. *)
Definition copy : M IntcodeComputer :=
  fun st =>
    let res := self (init [] None false false []) in
    let res := with_program (program (self st)) res in
    let pending := inputs (self st) in
    let st' := mkState (with_inputs [] (self st)) (stdin st) (stores st) in
    let res := with_inputs pending res in
    let res := with_output (output (self st')) res in
    let res := with_pointer (pointer (self st')) res in
    let res := with_relative_base (relative_base (self st')) res in
    let res := with_debug (debug (self st')) res in
    let res := with_interactive (interactive (self st')) res in
    (Ok res, st').

Definition get_input : M Z :=
  fun st =>
    if interactive (self st) then
      match stdin st with
      | x :: rest => (Ok x, mkState (self st) rest (stores st))
      | [] => (Raise EOFError, st)
      end
    else
      match inputs (self st) with
      | x :: rest => (Ok x, mkState (with_inputs rest (self st)) (stdin st) (stores st))
      | [] => (Raise StopIteration, st)
      end.

(** Arguments [add_input] can receive: an [int], a [list] (of anything), a
    [tuple], or an object of yet another type. *)
#[warnings="-register-all"]
Inductive value :=
| VInt (z : Z)
| VList (l : list value)
| VTuple (l : list value)
| VOther.

Fixpoint add_input (val : value) : M unit :=
  modify (with_interactive false) >>
  match val with
  | VList l =>
    (fix loop (l : list value) : M unit :=
       match l with
       | [] => ret tt
       | i :: r => add_input i >> loop r
       end) l
  | VInt z =>
    let! pending := gets inputs in
    modify (with_inputs (pending ++ [z]))
  | VTuple _ => raise TypeError_provide_int
  | VOther => raise TypeError_provide_int
  end.

Definition slice_program (slice_range : list Z) : M (list Z) :=
  comprehension slice_range getitem.

Definition get_value (instruction : Instruction) : M Z :=
  if mode instruction =? 0 then getitem (parameter instruction)
  else if mode instruction =? 1 then ret (parameter instruction)
  else if mode instruction =? 2 then
    let! rb := gets relative_base in getitem (rb + parameter instruction)
  else raise (ValueError_invalid_mode instruction).

Definition get_write_value (instruction : Instruction) : M Z :=
  if mode instruction =? 2 then
    let! rb := gets relative_base in ret (parameter instruction + rb)
  else ret (parameter instruction).

(** [execute_opcode]; the [print] under [debug] only writes to the terminal.
    In an assignment the right-hand side is evaluated before the target's
    subscript. *)
Definition execute_opcode (opcode : Z) (params : list Instruction) : M bool :=
  if opcode =? 1 then
    let! p0 := lift (item params 0) in let! a := get_value p0 in
    let! p1 := lift (item params 1) in let! b := get_value p1 in
    let! p2 := lift (item params 2) in let! dst := get_write_value p2 in
    setitem dst (a + b) >> ret true
  else if opcode =? 2 then
    let! p0 := lift (item params 0) in let! a := get_value p0 in
    let! p1 := lift (item params 1) in let! b := get_value p1 in
    let! p2 := lift (item params 2) in let! dst := get_write_value p2 in
    setitem dst (a * b) >> ret true
  else if opcode =? 3 then
    let! v := get_input in
    let! p0 := lift (item params 0) in let! dst := get_write_value p0 in
    setitem dst v >> ret true
  else if opcode =? 4 then
    let! p0 := lift (item params 0) in let! a := get_value p0 in
    let! out := gets output in
    modify (with_output (out ++ [a])) >> ret true
  else if opcode =? 5 then
    let! p0 := lift (item params 0) in let! a := get_value p0 in
    if negb (a =? 0) then
      let! p1 := lift (item params 1) in let! b := get_value p1 in
      modify (with_pointer b) >> ret false
    else ret true
  else if opcode =? 6 then
    let! p0 := lift (item params 0) in let! a := get_value p0 in
    if a =? 0 then
      let! p1 := lift (item params 1) in let! b := get_value p1 in
      modify (with_pointer b) >> ret false
    else ret true
  else if opcode =? 7 then
    let! p0 := lift (item params 0) in let! a := get_value p0 in
    let! p1 := lift (item params 1) in let! b := get_value p1 in
    let res := if a <? b then 1 else 0 in
    let! p2 := lift (item params 2) in let! dst := get_write_value p2 in
    setitem dst res >> ret true
  else if opcode =? 8 then
    let! p0 := lift (item params 0) in let! a := get_value p0 in
    let! p1 := lift (item params 1) in let! b := get_value p1 in
    let res := if a =? b then 1 else 0 in
    let! p2 := lift (item params 2) in let! dst := get_write_value p2 in
    setitem dst res >> ret true
  else if opcode =? 9 then
    let! rb := gets relative_base in
    let! p0 := lift (item params 0) in let! a := get_value p0 in
    modify (with_relative_base (rb + a)) >> ret true
  else ret true.

(** [max(d)] over the keys of a dict; [None] when the dict is empty. *)
Definition max_key (d : gmap Z Z) : option Z :=
  match (map_to_list d).*1 with
  | [] => None
  | k :: ks => Some (foldr Z.max k ks)
  end.

(** [__str__], for its effect on the instance: [max] fails on an empty
    dict, and every address up to the largest key is read. *)
Definition dump : M unit :=
  let! prog := gets program in
  match max_key prog with
  | None => raise ValueError_max_empty
  | Some max_index =>
    let! _ := comprehension (Py.range 0 (max_index + 1)) getitem in ret tt
  end.

(** The loop body of [run] up to the pointer update (lines 152-175):
    [true] when it executes [return True] on opcode 99, [false] when one
    instruction has been executed and the loop body goes on. *)
Definition execute_next : M bool :=
  let! ptr := gets pointer in
  let! word := getitem ptr in
  let! (opcode, m0, m1, m2) := lift (parse_opcode word) in
  let modes := [m0; m1; m2] in
  if negb (bool_decide (opcode ∈ valid_opcodes)) then
    raise (ValueError_is_an_invalid_opcode opcode)
  else if opcode =? 99 then ret true
  else
    let! num_params := lift (num_parameters opcode) in
    let! ptr := gets pointer in
    let! cells := slice_program (Py.range (ptr + 1) (ptr + 1 + num_params)) in
    let! params := comprehension (Py.enumerate cells) (fun '(index, param) =>
                     let! m := lift (item modes index) in
                     ret (mkInstruction param m)) in
    let! dbg := gets debug in
    (if dbg then dump else ret tt) >>
    let! should_increment_pointer := execute_opcode opcode params in
    (if should_increment_pointer
     then let! ptr := gets pointer in modify (with_pointer (ptr + (num_params + 1)))
     else ret tt) >>
    ret false.

(** One iteration of the [while True] loop: the body above, then the test
    on the number of new outputs (lines 177-178).  [Some b] when the
    iteration executes [return b], [None] when the loop goes on. *)
Definition step (limit_outputs : bool) (num_outputs : option Z)
    (original_num_outputs : Z) : M (option bool) :=
  let! halted := execute_next in
  if halted then ret (Some true)
  else
    let! out := gets output in
    if limit_outputs
       && bool_decide (Some (Z.of_nat (length out) - original_num_outputs) = num_outputs)
    then ret (Some false)
    else ret None.

Fixpoint run_loop (fuel : nat) (limit_outputs : bool) (num_outputs : option Z)
    (original_num_outputs : Z) : M bool :=
  match fuel with
  | O => timeout
  | S fuel' =>
    let! r := step limit_outputs num_outputs original_num_outputs in
    match r with
    | Some b => ret b
    | None => run_loop fuel' limit_outputs num_outputs original_num_outputs
    end
  end.

(** [run(num_outputs)]: [true] is "halted", [false] is "not yet halted". *)
Definition run (fuel : nat) (num_outputs : option Z) : M bool :=
  let limit_outputs := Py.truthy num_outputs in
  let! out := gets output in
  let original_num_outputs := Z.of_nat (length out) in
  run_loop fuel limit_outputs num_outputs original_num_outputs.

Definition diagnostic : M Z :=
  let! out := gets output in
  if negb (forallb (fun x => x =? 0) (Py.but_last out)) then
    raise (RuntimeError_bad_diagnostic (Py.but_last out))
  else lift (item out (-1)).

(** ** Sequences of calls on a machine

    [boot] is a machine built by [IntcodeComputer(prog, ins)].  An [op] is
    one thing a caller does with a machine; [exec] gives the state after it,
    whether the call returned or raised. *)
Definition boot (prog : list Z) (ins : option (list Z)) : state :=
  init prog ins false false [].

Inductive op :=
| OpAddInput (val : value)                  (* m.add_input(val) *)
| OpRun (fuel : nat) (num_outputs : option Z) (* m.run(num_outputs) *)
| OpDiagnostic                              (* m.diagnostic() *)
| OpCopy                                    (* m.copy(), result dropped *)
| OpClone                                   (* m = m.copy() *)
| OpStore (k v : Z)                         (* m.program[k] = v *)
| OpLoad (k : Z).                           (* m.program[k] *)

Definition exec (o : op) (st : state) : state :=
  match o with
  | OpAddInput val => snd (add_input val st)
  | OpRun fuel num_outputs => snd (run fuel num_outputs st)
  | OpDiagnostic => snd (diagnostic st)
  | OpCopy => snd (copy st)
  | OpClone =>
    match copy st with
    | (Ok res, st') => mkState res (stdin st') (stores st')
    | (_, st') => st'
    end
  | OpStore k v => snd (setitem k v st)
  | OpLoad k => snd (getitem k st)
  end.

Definition exec_all (ops : list op) (st : state) : state :=
  foldl (fun st o => exec o st) st ops.

(** The state after [k] instructions have been executed, none of them
    halting or raising. *)
Fixpoint instructions (k : nat) (st : state) : option state :=
  match k with
  | O => Some st
  | S k' =>
    match execute_next st with
    | (Ok false, st') => instructions k' st'
    | _ => None
    end
  end.

(** What a read of address [k] returns. *)
Definition peek (k : Z) (c : IntcodeComputer) : Z := default 0 (program c !! k).

(** The state after a read of address [k]. *)
Definition touch (k : Z) (st : state) : state := snd (getitem k st).

(** [st'] is [st] with some more cells holding [0] materialised by reads. *)
Record same_view (st st' : state) : Prop := mkSameView {
  sv_peek : forall a, peek a (self st') = peek a (self st);
  sv_keys : program (self st) ⊆ program (self st');
  sv_output : output (self st') = output (self st);
  sv_pointer : pointer (self st') = pointer (self st);
  sv_interactive : interactive (self st') = interactive (self st);
  sv_inputs : inputs (self st') = inputs (self st);
  sv_relative_base : relative_base (self st') = relative_base (self st);
  sv_debug : debug (self st') = debug (self st);
  sv_stdin : stdin st' = stdin st;
  sv_stores : stores st' = stores st
}.

(** The reading of [decode] in which the three digits above the opcode are
    taken most-significant first for operands 1, 2, 3. *)
Definition decode_msd_first (w : Z) : Z * Z * Z * Z :=
  (w mod 100, (w / 10000) mod 10, (w / 1000) mod 10, (w / 100) mod 10).

(** The reading in which they are taken least-significant first. *)
Definition decode_lsd_first (w : Z) : Z * Z * Z * Z :=
  (w mod 100, (w / 100) mod 10, (w / 1000) mod 10, (w / 10000) mod 10).

(** A machine whose output log is [log]. *)
Definition with_log (log : list Z) : state :=
  mkState (with_output log (self (boot [99] None))) [] ∅.

(** [m] keeps [P], whether it returns, raises or runs out of fuel. *)
Definition preserves {A} (P : state -> Prop) (m : M A) : Prop :=
  forall st, P st -> P (snd (m st)).

(** Every address that no assignment has written reads as zero. *)
Definition zero_unless_stored (st : state) : Prop :=
  forall a, a ∉ stores st -> peek a (self st) = 0.

(** Queued mode. *)
Definition queued (st : state) : Prop := interactive (self st) = false.

(** An operation that does not assign address [a]; a [run] may. *)
Definition avoids (a : Z) (o : op) : Prop :=
  match o with
  | OpStore k _ => k <> a
  | OpRun _ _ => False
  | _ => True
  end.

(** ** Closed forms used to state what one instruction does *)

(** What [get_value] returns in the modes 0, 1 and 2. *)
Definition resolve (c : IntcodeComputer) (i : Instruction) : Z :=
  if mode i =? 0 then peek (parameter i) c
  else if mode i =? 1 then parameter i
  else peek (relative_base c + parameter i) c.

(** What [get_write_value] returns. *)
Definition target (c : IntcodeComputer) (i : Instruction) : Z :=
  if mode i =? 2 then parameter i + relative_base c else parameter i.

(** The [k]-th operand of the instruction at the pointer, with mode [m]. *)
Definition operand (c : IntcodeComputer) (k m : Z) : Instruction :=
  mkInstruction (peek (pointer c + k) c) m.

Definition valid_mode (m : Z) : Prop := m = 0 \/ m = 1 \/ m = 2.

(** The value the opcodes 1, 2, 7 and 8 store. *)
Definition alu (op a b : Z) : Z :=
  if op =? 1 then a + b
  else if op =? 2 then a * b
  else if op =? 7 then (if a <? b then 1 else 0)
  else (if a =? b then 1 else 0).

(** Whether the opcodes 5 and 6 jump on the value [a]. *)
Definition jumps (op a : Z) : bool :=
  if op =? 5 then negb (a =? 0) else a =? 0.

(** States after an assignment to memory, to the pointer, to the relative
    base, and after an [append] to the output log. *)
Definition poke (k v : Z) (st : state) : state := snd (setitem k v st).
Definition goto (p : Z) (st : state) : state := snd (modify (with_pointer p) st).
Definition skip (n : Z) (st : state) : state := goto (pointer (self st) + n) st.
Definition rebase (r : Z) (st : state) : state :=
  snd (modify (with_relative_base r) st).
Definition emit (a : Z) (st : state) : state :=
  snd (modify (with_output (output (self st) ++ [a])) st).

(** The integers [add_input] appends for an argument, depth first, up to
    the first object that is neither an [int] nor a [list]; the flag tells
    whether the whole argument was accepted. *)
Fixpoint ints_of (val : value) : list Z * bool :=
  match val with
  | VInt z => ([z], true)
  | VList l =>
    (fix go (l : list value) : list Z * bool :=
       match l with
       | [] => ([], true)
       | i :: r =>
         match ints_of i with
         | (zs, true) => let '(zs', ok) := go r in (zs ++ zs', ok)
         | (zs, false) => (zs, false)
         end
       end) l
  | VTuple _ => ([], false)
  | VOther => ([], false)
  end.

(** The result and the state of [add_input] in terms of [ints_of]. *)
Definition outcome (ok : bool) : result unit :=
  if ok then Ok tt else Raise TypeError_provide_int.

Definition queue_more (zs : list Z) (st : state) : state :=
  mkState (with_inputs (inputs (self st) ++ zs) (with_interactive false (self st)))
          (stdin st) (stores st).

(** The operands [run] builds for an instruction with [n] operands. *)
Definition operands (c : IntcodeComputer) (n m0 m1 m2 : Z) : list Instruction :=
  take (Z.to_nat n) [operand c 1 m0; operand c 2 m1; operand c 3 m2].

(** The end of the loop body of [run], from [execute_opcode] on, for an
    instruction with [n] operands. *)
Definition finish (n : Z) (execute : M bool) : M bool :=
  let! should_increment_pointer := execute in
  (if should_increment_pointer
   then let! ptr := gets pointer in modify (with_pointer (ptr + (n + 1)))
   else ret tt) >>
  ret false.

(** On every state with the view of [st], [m] returns [a] and ends in a
    state with the view of [st']. *)
Definition returns {A} (m : M A) (st : state) (a : A) (st' : state) : Prop :=
  forall s, same_view st s -> exists s', m s = (Ok a, s') /\ same_view st' s'.

(** On every state with the view of [st], [m] raises [e] and ends in a
    state with the view of [st']. *)
Definition raises {A} (m : M A) (st : state) (e : exn) (st' : state) : Prop :=
  forall s, same_view st s -> exists s', m s = (Raise e, s') /\ same_view st' s'.

(** From a state in queued mode, [m] is still in queued mode when it
    returns, and raises nothing but exceptions in [E]. *)
Definition guarded (E : exn -> Prop) {A} (m : M A) : Prop :=
  forall st, queued st ->
    match m st with
    | (Ok _, st') => queued st'
    | (Raise e, _) => E e
    | (Timeout, _) => True
    end.

(** Strings made of ASCII digits only. *)
Definition is_digit (c : ascii) : bool :=
  match Py.digit_of_ascii c with
  | Some _ => true
  | None => false
  end.

Fixpoint all_digits (s : string) : bool :=
  match s with
  | EmptyString => true
  | String c r => is_digit c && all_digits r
  end.

(** The instruction word with opcode [op] and operand modes [m0 m1 m2]. *)
Definition encode (op m0 m1 m2 : Z) : Z := op + 100 * m0 + 1000 * m1 + 10000 * m2.

(** A machine in interactive mode has nothing pending in its input queue. *)
Definition console_only (st : state) : Prop :=
  interactive (self st) = true -> inputs (self st) = [].

(** What a call may change: the output log only grows at its end, no key
    leaves the memory dict, console lines are only consumed from the
    front, and the debug flag stays. *)
Record extends (st st' : state) : Prop := mkExtends {
  ext_output : output (self st) `prefix_of` output (self st');
  ext_keys : dom (program (self st)) ⊆ dom (program (self st'));
  ext_stdin : stdin st' `suffix_of` stdin st;
  ext_debug : debug (self st') = debug (self st)
}.

(** What [run] may change on top of that: it never adds an input and never
    touches the interactive flag. *)
Record run_frame (st st' : state) : Prop := mkRunFrame {
  rf_extends : extends st st';
  rf_inputs : inputs (self st') `suffix_of` inputs (self st);
  rf_interactive : interactive (self st') = interactive (self st)
}.

(** Every state [m] can end in is related by [R] to the one it started
    from. *)
Definition moves (R : state -> state -> Prop) {A} (m : M A) : Prop :=
  forall st, R st (snd (m st)).

(** The exceptions a [run] can end with on a machine in queued mode. *)
Definition queued_run_error (e : exn) : Prop :=
  match e with
  | ValueError_digit_limit
  | ValueError_invalid_literal _
  | ValueError_is_an_invalid_opcode _
  | ValueError_invalid_mode _
  | StopIteration => True
  | _ => False
  end.

(** * Properties *)

(** ** Decimal rendering and decoding *)

Lemma digits_of_small fuel n acc :
  n < 10 -> Py.digits_of fuel n acc = String (Py.digit_char (n mod 10)) acc.
Proof.
  intros Hn. destruct fuel as [|fuel]; simpl; [done|].
  destruct (Z.ltb_spec n 10); [done | lia].
Qed.

Lemma digits_of_large fuel n acc :
  10 <= n ->
  Py.digits_of (S fuel) n acc
  = Py.digits_of fuel (n / 10) (String (Py.digit_char (n mod 10)) acc).
Proof.
  intros Hn. simpl. destruct (Z.ltb_spec n 10); [lia | done].
Qed.

Lemma log2_fuel (k : nat) (n : Z) :
  2 ^ Z.of_nat k <= n -> exists f, Z.to_nat (Z.log2 n) = (k + f)%nat.
Proof.
  intros Hn. exists (Z.to_nat (Z.log2 n) - k)%nat.
  assert (Z.of_nat k <= Z.log2 n).
  { rewrite <- (Z.log2_pow2 (Z.of_nat k)) by lia. by apply Z.log2_le_mono. }
  lia.
Qed.

Lemma digit_cases (d : Z) :
  0 <= d < 10 ->
  d = 0 \/ d = 1 \/ d = 2 \/ d = 3 \/ d = 4 \/ d = 5 \/ d = 6 \/ d = 7 \/ d = 8 \/ d = 9.
Proof. lia. Qed.

Lemma digit_char_not_sign (d : Z) :
  0 <= d < 10 ->
  (Ascii.eqb (Py.digit_char d) "-" || Ascii.eqb (Py.digit_char d) "+")%bool = false.
Proof.
  intros Hd. destruct (digit_cases d Hd) as [->|[->|[->|[->|[->|[->|[->|[->|[->| ->]]]]]]]]];
    reflexivity.
Qed.

Lemma digit_of_digit_char (d : Z) :
  0 <= d < 10 -> Py.digit_of_ascii (Py.digit_char d) = Some d.
Proof.
  intros Hd. destruct (digit_cases d Hd) as [->|[->|[->|[->|[->|[->|[->|[->|[->| ->]]]]]]]]];
    reflexivity.
Qed.

(** A word of at most five digits is padded to exactly its five digits. *)
Lemma padded_five_digits (w : Z) :
  0 <= w < 100000 ->
  Py.zfill 5 (Py.str w)
  = String (Py.digit_char ((w / 10000) mod 10))
      (String (Py.digit_char ((w / 1000) mod 10))
        (String (Py.digit_char ((w / 100) mod 10))
          (String (Py.digit_char ((w / 10) mod 10))
            (String (Py.digit_char (w mod 10)) EmptyString)))).
Proof.
  intros Hw. unfold Py.str.
  destruct (Z.ltb_spec w 0) as [?|_]; [lia|].
  assert (Hten : forall n, 0 <= n -> (n / 10) / 10 = n / 100
                                  /\ (n / 10) / 10 / 10 = n / 1000
                                  /\ (n / 10) / 10 / 10 / 10 = n / 10000).
  { intros n Hn. rewrite !Z.div_div by lia. done. }
  destruct (Hten w) as (H2 & H3 & H4); [lia|].
  assert (Hd : forall n, 0 <= n mod 10 < 10) by (intros n; apply Z.mod_pos_bound; lia).
  destruct (Z.lt_ge_cases w 10) as [H10|H10].
  { rewrite digits_of_small by done. unfold Py.zfill. simpl String.length.
    simpl Nat.sub. rewrite digit_char_not_sign by done.
    rewrite (Z.div_small w 10000), (Z.div_small w 1000), (Z.div_small w 100), (Z.div_small w 10) by lia. reflexivity. }
  destruct (Z.lt_ge_cases w 100) as [H100|H100].
  { destruct (log2_fuel 1 w) as [f ->]; [change (2 ^ Z.of_nat 1) with 2; lia|]. simpl Nat.add.
    rewrite digits_of_large by done.
    rewrite digits_of_small by (apply Z.div_lt_upper_bound; lia).
    unfold Py.zfill. simpl String.length. simpl Nat.sub.
    rewrite digit_char_not_sign by done.
    rewrite (Z.div_small w 10000), (Z.div_small w 1000), (Z.div_small w 100) by lia. reflexivity. }
  destruct (Z.lt_ge_cases w 1000) as [H1000|H1000].
  { destruct (log2_fuel 2 w) as [f ->]; [change (2 ^ Z.of_nat 2) with 4; lia|]. simpl Nat.add.
    rewrite digits_of_large by done.
    rewrite digits_of_large by (apply Z.div_le_lower_bound; lia).
    rewrite digits_of_small by (rewrite H2; apply Z.div_lt_upper_bound; lia).
    unfold Py.zfill. simpl String.length. simpl Nat.sub.
    rewrite digit_char_not_sign by done.
    rewrite H2, (Z.div_small w 10000), (Z.div_small w 1000) by lia. reflexivity. }
  destruct (Z.lt_ge_cases w 10000) as [H10000|H10000].
  { destruct (log2_fuel 3 w) as [f ->]; [change (2 ^ Z.of_nat 3) with 8; lia|]. simpl Nat.add.
    rewrite digits_of_large by done.
    rewrite digits_of_large by (apply Z.div_le_lower_bound; lia).
    rewrite digits_of_large by (rewrite H2; apply Z.div_le_lower_bound; lia).
    rewrite digits_of_small by (rewrite H3; apply Z.div_lt_upper_bound; lia).
    unfold Py.zfill. simpl String.length. simpl Nat.sub.
    rewrite digit_char_not_sign by done.
    rewrite H3, H2, (Z.div_small w 10000) by lia. reflexivity. }
  destruct (log2_fuel 4 w) as [f ->]; [change (2 ^ Z.of_nat 4) with 16; lia|]. simpl Nat.add.
  rewrite digits_of_large by done.
  rewrite digits_of_large by (apply Z.div_le_lower_bound; lia).
  rewrite digits_of_large by (rewrite H2; apply Z.div_le_lower_bound; lia).
  rewrite digits_of_large by (rewrite H3; apply Z.div_le_lower_bound; lia).
  rewrite digits_of_small by (rewrite H4; apply Z.div_lt_upper_bound; lia).
  unfold Py.zfill. simpl String.length. simpl Nat.sub.
  rewrite H4, H3, H2. reflexivity.
Qed.

Lemma digits_value_digit (acc d : Z) (r : string) :
  0 <= d < 10 ->
  Py.digits_value acc (String (Py.digit_char d) r) = Py.digits_value (10 * acc + d) r.
Proof.
  intros Hd. cbn [Py.digits_value]. by rewrite digit_of_digit_char.
Qed.

Lemma int_digit_first (d : Z) (r : string) :
  0 <= d < 10 ->
  Py.int (String (Py.digit_char d) r) = Py.digits_value d r.
Proof.
  intros Hd. unfold Py.int.
  destruct (orb_false_elim _ _ (digit_char_not_sign d Hd)) as [-> ->].
  rewrite digits_value_digit by done. reflexivity.
Qed.

Lemma int_of_digit (d : Z) :
  0 <= d < 10 -> int_of (String (Py.digit_char d) EmptyString) = Ok d.
Proof.
  intros Hd. unfold int_of. by rewrite int_digit_first.
Qed.

Lemma int_of_two_digits (a b : Z) :
  0 <= a < 10 -> 0 <= b < 10 ->
  int_of (String (Py.digit_char a) (String (Py.digit_char b) EmptyString))
  = Ok (10 * a + b).
Proof.
  intros Ha Hb. unfold int_of.
  rewrite int_digit_first, digits_value_digit by done. reflexivity.
Qed.

Lemma digits_of_length_le (k : nat) :
  forall (fuel : nat) (n : Z) (acc : string),
    (1 <= k)%nat -> 0 <= n < 10 ^ Z.of_nat k ->
    (String.length (Py.digits_of fuel n acc) <= k + String.length acc)%nat.
Proof.
  induction k as [|k IH]; intros fuel n acc Hk Hn; [lia|].
  destruct (Z.lt_ge_cases n 10) as [Hsmall|Hbig].
  { rewrite digits_of_small by done. cbn [String.length]. lia. }
  destruct fuel as [|fuel].
  { cbn [Py.digits_of String.length]. lia. }
  rewrite digits_of_large by done.
  destruct k as [|k].
  { change (10 ^ Z.of_nat 1) with 10 in Hn. lia. }
  rewrite Nat2Z.inj_succ, Z.pow_succ_r in Hn by lia.
  etrans; [apply IH|].
  - lia.
  - split; [apply Z.div_pos; lia|]. apply Z.div_lt_upper_bound; lia.
  - cbn [String.length]. lia.
Qed.

(** Below the digit limit [str] renders. *)
Lemma str_limited_rendered (n : Z) :
  Z.abs n < Py.max_rendered -> Py.str_limited n = Some (Py.str n).
Proof.
  intros Hn. unfold Py.str_limited.
  assert (Hlen : (String.length (Py.str (Z.abs n)) <= Py.int_max_str_digits)%nat).
  { unfold Py.str. destruct (Z.ltb_spec (Z.abs n) 0); [lia|].
    etrans; [apply (digits_of_length_le Py.int_max_str_digits)|].
    - unfold Py.int_max_str_digits. lia.
    - split; [lia | exact Hn].
    - cbn [String.length]. lia. }
  by rewrite (proj2 (Nat.leb_le _ _) Hlen).
Qed.

Lemma five_digits_rendered (w : Z) : 0 <= w < 100000 -> Z.abs w < Py.max_rendered.
Proof.
  intros Hw. unfold Py.max_rendered.
  apply Z.lt_le_trans with (10 ^ 5); [change (10 ^ 5) with 100000; lia|].
  apply Z.pow_le_mono_r; [lia|]. unfold Py.int_max_str_digits. lia.
Qed.

Lemma parse_opcode_five_digits (w : Z) :
  0 <= w < 100000 -> parse_opcode w = Ok (decode_lsd_first w).
Proof.
  intros Hw. unfold parse_opcode, str_of.
  rewrite str_limited_rendered by (by apply five_digits_rendered). cbn [rbind].
  rewrite padded_five_digits by done.
  assert (Hd : forall n, 0 <= n mod 10 < 10) by (intros n; apply Z.mod_pos_bound; lia).
  unfold Py.slice_from, index_char.
  cbn [String.length Nat.sub substring String.get].
  rewrite int_of_two_digits by done. cbn [rbind].
  rewrite !int_of_digit by done. cbn [rbind].
  unfold decode_lsd_first. do 4 f_equal.
  clear Hd. Z.div_mod_to_equations. lia.
Qed.

(** C2 (as amended).  For every instruction word [w] with
    [0 <= w <= 99999], [parse_opcode] reads [w] as a five-digit zero-padded
    decimal: the final two digits are the opcode, and the hundreds,
    thousands and ten-thousands digits (the three digits above the opcode,
    least-significant first) are the modes of operands 1, 2 and 3. *)
Theorem parse_opcode_digits (w : Z) :
  0 <= w <= 99999 ->
  parse_opcode w
  = Ok (w mod 100, (w / 100) mod 10, (w / 1000) mod 10, (w / 10000) mod 10).
Proof.
  intros Hw. apply parse_opcode_five_digits. lia.
Qed.

Lemma parse_opcode_digits_witness :
  0 <= 21002 <= 99999 /\ parse_opcode 21002 = Ok (2, 0, 1, 2).
Proof.
  split; [lia|]. exact (parse_opcode_digits 21002 ltac:(lia)).
Defined.

(** C2 as stated fails: in word 102 the digits above the opcode are 0, 0, 1
    from the most significant one, yet operand 1 gets mode 1 and operand 3
    mode 0; a word of six digits has a three-digit opcode; a negative word
    does not decode at all. *)
Lemma parse_opcode_not_msd_first :
  parse_opcode 102 = Ok (2, 1, 0, 0)
  /\ decode_msd_first 102 = (2, 0, 0, 1)
  /\ parse_opcode 102 <> Ok (decode_msd_first 102)
  /\ parse_opcode 123456 = Ok (456, 3, 2, 1)
  /\ parse_opcode (-1) = Raise (ValueError_invalid_literal "-").
Proof.
  repeat split; try reflexivity. vm_compute. discriminate.
Qed.

(** ** Operand resolution *)

(** C3 (as amended).  For every raw operand and every mode outside
    {0, 1, 2}, [get_value] raises the invalid-mode [ValueError] and leaves
    the machine as it was, while [get_write_value] does not fail: it
    returns the raw operand, as it does for every mode other than 2. *)
Theorem invalid_mode_resolution (raw m : Z) (st : state) :
  m <> 0 -> m <> 1 -> m <> 2 ->
  get_value (mkInstruction raw m) st
  = (Raise (ValueError_invalid_mode (mkInstruction raw m)), st)
  /\ get_write_value (mkInstruction raw m) st = (Ok raw, st).
Proof.
  intros H0 H1 H2. unfold get_value, get_write_value. cbn [mode parameter].
  destruct (Z.eqb_spec m 0); [done|].
  destruct (Z.eqb_spec m 1); [done|].
  destruct (Z.eqb_spec m 2); [done|].
  done.
Qed.

Lemma invalid_mode_resolution_witness :
  get_value (mkInstruction 7 3) (boot [99] None)
  = (Raise (ValueError_invalid_mode (mkInstruction 7 3)), boot [99] None)
  /\ get_write_value (mkInstruction 7 3) (boot [99] None) = (Ok 7, boot [99] None).
Proof.
  apply (invalid_mode_resolution 7 3 (boot [99] None)); lia.
Defined.

(** C3 as stated fails for [get_write_value]: with mode 3 it returns the
    raw operand instead of raising. *)
Lemma get_write_value_accepts_mode_3 :
  get_write_value (mkInstruction 7 3) (boot [99] None) = (Ok 7, boot [99] None).
Proof. reflexivity. Qed.

Lemma get_write_value_total (i : Instruction) (st : state) :
  get_write_value i st
  = (Ok (if mode i =? 2 then parameter i + relative_base (self st) else parameter i), st).
Proof.
  unfold get_write_value. by destruct (mode i =? 2).
Qed.

(** ** Diagnostics *)

Lemma forallb_zero (l : list Z) :
  forallb (fun x => x =? 0) l = true <-> Forall (fun y => y = 0) l.
Proof.
  rewrite forallb_forall, Forall_forall.
  split; intros H x Hx.
  - apply Z.eqb_eq, H. by apply list_elem_of_In.
  - apply Z.eqb_eq, H. by apply list_elem_of_In.
Qed.

Lemma item_last {A} (l : list A) (x : A) : item (l ++ [x]) (-1) = Ok x.
Proof.
  unfold item. rewrite length_app. cbn [length].
  replace (-1 <? 0) with true by reflexivity.
  replace (Z.to_nat (-1 + Z.of_nat (length l + 1))) with (length l) by lia.
  rewrite lookup_app_r, Nat.sub_diag by lia. cbn [lookup list_lookup].
  destruct (Z.leb_spec 0 (-1 + Z.of_nat (length l + 1))); [|lia].
  destruct (Z.ltb_spec (-1 + Z.of_nat (length l + 1)) (Z.of_nat (length l + 1))); [|lia].
  reflexivity.
Qed.

(** C5 (as amended).  For every non-empty output log, [diagnostic] returns
    the last output when every output before it is zero, and otherwise
    raises the bad-diagnostic [RuntimeError] carrying all the outputs
    before the last; the machine is unchanged either way. *)
Theorem diagnostic_nonempty (st : state) (codes : list Z) (x : Z) :
  output (self st) = codes ++ [x] ->
  (Forall (fun y => y = 0) codes -> diagnostic st = (Ok x, st))
  /\ (~ Forall (fun y => y = 0) codes ->
      diagnostic st = (Raise (RuntimeError_bad_diagnostic codes), st)).
Proof.
  intros Hout. unfold diagnostic, bind, gets, raise, lift, Py.but_last.
  rewrite Hout, removelast_last.
  destruct (forallb (fun x => x =? 0) codes) eqn:Hall; cbn [negb].
  - split; [|intros Hn; exfalso; by apply Hn, forallb_zero].
    intros _. by rewrite item_last.
  - split; [|done].
    intros Hz. apply forallb_zero in Hz. congruence.
Qed.

Lemma diagnostic_nonempty_witness :
  diagnostic (with_log [0; 0; 0; 42]) = (Ok 42, with_log [0; 0; 0; 42])
  /\ diagnostic (with_log [0; 1; 0])
     = (Raise (RuntimeError_bad_diagnostic [0; 1]), with_log [0; 1; 0]).
Proof.
  split.
  - apply (diagnostic_nonempty (with_log [0; 0; 0; 42]) [0; 0; 0] 42); [reflexivity|].
    repeat constructor.
  - apply (diagnostic_nonempty (with_log [0; 1; 0]) [0; 1] 0); [reflexivity|].
    intros Hz. inversion Hz as [|? ? _ Hz']. inversion Hz' as [|? ? Hone _]. discriminate Hone.
Defined.

(** C5 as stated fails on the empty log: every output before the last is
    (vacuously) zero, yet no last output is returned. *)
Lemma empty_log_has_no_last_output :
  output (self (with_log [])) = []
  /\ Forall (fun y => y = 0) (Py.but_last (output (self (with_log []))))
  /\ diagnostic (with_log []) = (Raise IndexError, with_log []).
Proof.
  repeat split. constructor.
Qed.

(** C10.  On an empty output log [diagnostic] neither returns a result nor
    raises the bad-diagnostic error: the all-zero test passes on the empty
    prefix and taking the last output raises [IndexError]. *)
Theorem diagnostic_empty_log (st : state) :
  output (self st) = [] -> diagnostic st = (Raise IndexError, st).
Proof.
  intros Hout. unfold diagnostic, bind, gets. by rewrite Hout.
Qed.

Lemma diagnostic_empty_log_witness :
  diagnostic (boot [99] None) = (Raise IndexError, boot [99] None).
Proof.
  apply (diagnostic_empty_log (boot [99] None)). reflexivity.
Defined.

(** ** Cloning *)

Lemma copy_spec (st : state) :
  copy st = (Ok (self st), mkState (with_inputs [] (self st)) (stdin st) (stores st)).
Proof.
  destruct st as [[prog out ptr int ins rb dbg] console ghost]. reflexivity.
Qed.

(** C1 at a failing input.  A machine holding the pending input 7 is
    copied: the copy has the pending input, the original has lost it, so
    the same [run] raises [StopIteration] on the original and halts with
    output [7] on the copy. *)
Theorem copy_drains_pending_inputs :
  let st := boot [3; 0; 4; 0; 99] (Some [7]) in
  exists clone st',
    copy st = (Ok clone, st')
    /\ inputs (self st) = [7]
    /\ inputs clone = [7]
    /\ inputs (self st') = []
    /\ fst (run 10 None st') = Raise StopIteration
    /\ fst (run 10 None (mkState clone (stdin st') (stores st'))) = Ok true
    /\ output (self (snd (run 10 None (mkState clone (stdin st') (stores st'))))) = [7].
Proof.
  intros st. eexists _, _. split; [apply copy_spec|].
  split_and!; vm_compute; reflexivity.
Qed.

(** ** Reads and the view of a machine *)

Lemma getitem_spec (k : Z) (st : state) :
  getitem k st = (Ok (peek k (self st)), touch k st).
Proof.
  unfold touch, peek, getitem. by destruct (program (self st) !! k).
Qed.

Lemma same_view_refl (st : state) : same_view st st.
Proof. by constructor. Qed.

Lemma same_view_trans (st1 st2 st3 : state) :
  same_view st1 st2 -> same_view st2 st3 -> same_view st1 st3.
Proof.
  intros H12 H23. constructor.
  - intros a. rewrite (sv_peek _ _ H23). apply (sv_peek _ _ H12).
  - transitivity (program (self st2)); [apply H12 | apply H23].
  - rewrite (sv_output _ _ H23). apply H12.
  - rewrite (sv_pointer _ _ H23). apply H12.
  - rewrite (sv_interactive _ _ H23). apply H12.
  - rewrite (sv_inputs _ _ H23). apply H12.
  - rewrite (sv_relative_base _ _ H23). apply H12.
  - rewrite (sv_debug _ _ H23). apply H12.
  - rewrite (sv_stdin _ _ H23). apply H12.
  - rewrite (sv_stores _ _ H23). apply H12.
Qed.

Lemma touch_same_view (k : Z) (st : state) : same_view st (touch k st).
Proof.
  unfold touch, getitem.
  destruct (program (self st) !! k) eqn:Hk; [apply same_view_refl|].
  constructor; cbn; try done.
  - intros a. unfold peek. cbn.
    destruct (decide (k = a)) as [->|Hne].
    + by rewrite lookup_insert_eq, Hk.
    + by rewrite lookup_insert_ne.
  - by apply insert_subseteq.
Qed.

Lemma touch_lookup (k : Z) (st : state) :
  program (self (touch k st)) !! k = Some (peek k (self st)).
Proof.
  unfold touch, getitem, peek.
  destruct (program (self st) !! k) eqn:Hk; cbn; [done|].
  by rewrite lookup_insert_eq.
Qed.

Lemma comprehension_getitem (l : list Z) (st : state) :
  exists st',
    comprehension l getitem st = (Ok (map (fun k => peek k (self st)) l), st')
    /\ same_view st st'.
Proof.
  revert st. induction l as [|k l IH]; intros st.
  - exists st. split; [done | apply same_view_refl].
  - cbn [comprehension map]. unfold bind at 1. rewrite getitem_spec.
    destruct (IH (touch k st)) as (st' & Hrun & Hview).
    exists st'. unfold bind at 1. rewrite Hrun. cbn.
    pose proof (touch_same_view k st) as Hk.
    split; [|by eapply same_view_trans].
    unfold ret. do 3 f_equal. apply map_ext. intros a. apply (sv_peek _ _ Hk).
Qed.

Lemma max_key_nonempty (d : gmap Z Z) : d <> ∅ -> is_Some (max_key d).
Proof.
  intros Hd. unfold max_key.
  destruct (map_to_list d) as [|kv kvs] eqn:Hl; cbn; [|eauto].
  by apply map_to_list_empty_iff in Hl.
Qed.

Lemma dump_same_view (st : state) :
  program (self st) <> ∅ -> exists st', dump st = (Ok tt, st') /\ same_view st st'.
Proof.
  intros Hne. unfold dump, bind at 1, gets.
  destruct (max_key_nonempty _ Hne) as [max_index ->].
  destruct (comprehension_getitem (Py.range 0 (max_index + 1)) st) as (st' & Hrun & Hview).
  exists st'. unfold bind. by rewrite Hrun.
Qed.

Lemma same_view_nonempty (k : Z) (st st' : state) :
  same_view (touch k st) st' -> program (self st') <> ∅.
Proof.
  intros Hview Hempty.
  pose proof (lookup_weaken _ _ _ _ (touch_lookup k st) (sv_keys _ _ Hview)) as Hk.
  by rewrite Hempty, lookup_empty in Hk.
Qed.

(** ** Fatal errors of a run *)

Lemma run_unfold (fuel : nat) (num_outputs : option Z) (st : state) :
  run fuel num_outputs st
  = run_loop fuel (Py.truthy num_outputs) num_outputs
      (Z.of_nat (length (output (self st)))) st.
Proof. reflexivity. Qed.

Lemma run_loop_raise (fuel : nat) (limit : bool) (n : option Z) (orig : Z)
    (e : exn) (st st' : state) :
  execute_next st = (Raise e, st') ->
  run_loop (S fuel) limit n orig st = (Raise e, st').
Proof.
  intros Hnext. cbn [run_loop]. unfold bind at 1. unfold step, bind at 1.
  by rewrite Hnext.
Qed.

Lemma execute_next_invalid_opcode (st : state) (op m0 m1 m2 : Z) :
  parse_opcode (peek (pointer (self st)) (self st)) = Ok (op, m0, m1, m2) ->
  op ∉ valid_opcodes ->
  execute_next st
  = (Raise (ValueError_is_an_invalid_opcode op), touch (pointer (self st)) st).
Proof.
  intros Hparse Hop. unfold execute_next, bind at 1, gets.
  unfold bind at 1. rewrite getitem_spec.
  unfold bind at 1, lift. rewrite Hparse.
  by rewrite bool_decide_eq_false_2.
Qed.

(** C6.  When the word at the pointer decodes to an opcode outside
    {1,...,9,99}, [run] raises the invalid-opcode [ValueError] at once.  The
    machine is left as the fetch of that word left it: output log, pointer,
    relative base, pending inputs and what every address reads are those
    before the call. *)
Theorem invalid_opcode_aborts (st : state) (fuel : nat) (num_outputs : option Z)
    (op m0 m1 m2 : Z) :
  parse_opcode (peek (pointer (self st)) (self st)) = Ok (op, m0, m1, m2) ->
  op ∉ valid_opcodes ->
  run (S fuel) num_outputs st
  = (Raise (ValueError_is_an_invalid_opcode op), touch (pointer (self st)) st)
  /\ same_view st (touch (pointer (self st)) st).
Proof.
  intros Hparse Hop. split; [|apply touch_same_view].
  rewrite run_unfold. apply run_loop_raise. by eapply execute_next_invalid_opcode.
Qed.

Lemma invalid_opcode_aborts_witness :
  run 1 None (boot [42] None)
  = (Raise (ValueError_is_an_invalid_opcode 42), touch 0 (boot [42] None))
  /\ same_view (boot [42] None) (touch 0 (boot [42] None)).
Proof.
  apply (invalid_opcode_aborts (boot [42] None) 0 None 42 0 0 0).
  - reflexivity.
  - intros Hin. apply (bool_decide_pack _) in Hin. vm_compute in Hin. destruct Hin.
Defined.

Lemma execute_opcode_input_exhausted (params : list Instruction) (st : state) :
  interactive (self st) = false -> inputs (self st) = [] ->
  execute_opcode 3 params st = (Raise StopIteration, st).
Proof.
  intros Hint Hin. unfold execute_opcode. cbn [Z.eqb Pos.eqb].
  unfold bind at 1, get_input. by rewrite Hint, Hin.
Qed.

Lemma range_one (a : Z) : Py.range (a + 1) (a + 1 + 1) = [a + 1].
Proof.
  unfold Py.range. by replace (a + 1 + 1 - (a + 1)) with 1 by lia.
Qed.

Lemma execute_next_input_exhausted (st : state) (m0 m1 m2 : Z) :
  interactive (self st) = false -> inputs (self st) = [] ->
  parse_opcode (peek (pointer (self st)) (self st)) = Ok (3, m0, m1, m2) ->
  exists st', execute_next st = (Raise StopIteration, st') /\ same_view st st'.
Proof.
  intros Hint Hin Hparse.
  pose proof (touch_same_view (pointer (self st)) st) as Hv1.
  set (st1 := touch (pointer (self st)) st) in *.
  pose proof (touch_same_view (pointer (self st) + 1) st1) as Hv2.
  set (st2 := touch (pointer (self st) + 1) st1) in *.
  assert (Hv : same_view st st2) by (by eapply same_view_trans).
  assert (Hdump : exists st3,
             (if debug (self st2) then dump else ret tt) st2 = (Ok tt, st3)
             /\ same_view st2 st3).
  { destruct (debug (self st2)).
    - apply dump_same_view. by eapply (same_view_nonempty (pointer (self st)) st).
    - exists st2. split; [done | apply same_view_refl]. }
  destruct Hdump as (st3 & Hdump & Hv3).
  assert (Hv' : same_view st st3) by (by eapply same_view_trans).
  exists st3. split; [|done].
  unfold execute_next, bind at 1, gets.
  unfold bind at 1. rewrite getitem_spec. fold st1.
  unfold bind at 1, lift. rewrite Hparse.
  cbn [bool_decide negb Z.eqb Pos.eqb]. 
  replace (bool_decide (3 ∈ valid_opcodes)) with true by reflexivity.
  cbn [negb]. change (num_parameters 3) with (@Ok Z 1).
  unfold bind at 1. unfold bind at 1.
  rewrite (sv_pointer _ _ Hv1), range_one.
  unfold bind at 1, slice_program. cbn [comprehension].
  unfold bind at 1. rewrite getitem_spec. fold st2.
  unfold bind at 1, ret at 1. unfold ret at 1.
  unfold bind at 1. cbn [Py.enumerate Py.enumerate_from comprehension].
  unfold bind at 1. unfold bind at 1. change (item [m0; m1; m2] 0) with (Ok m0).
  unfold ret at 1. unfold bind at 1, ret at 1, ret at 1.
  unfold bind at 1. unfold bind at 1. rewrite Hdump.
  unfold bind at 1.
  rewrite execute_opcode_input_exhausted; [done| |].
  - by rewrite (sv_interactive _ _ Hv').
  - by rewrite (sv_inputs _ _ Hv').
Qed.



(** ** Suspension on the output bound *)

Lemma instructions_succ (k : nat) (st st1 : state) :
  execute_next st = (Ok false, st1) ->
  instructions (S k) st = instructions k st1.
Proof. intros Hnext. cbn [instructions]. by rewrite Hnext. Qed.

Lemma instructions_first (k : nat) (st st_k : state) :
  instructions (S k) st = Some st_k ->
  exists st1, execute_next st = (Ok false, st1) /\ instructions k st1 = Some st_k.
Proof.
  cbn [instructions].
  destruct (execute_next st) as [[[|]|e|] st1]; try discriminate.
  intros Hk. by exists st1.
Qed.

Lemma run_loop_suspends (N orig : Z) (k : nat) :
  forall (fuel : nat) (st st_k : state),
    instructions (S k) st = Some st_k ->
    Z.of_nat (length (output (self st_k))) - orig = N ->
    (forall j st_j, (0 < j <= k)%nat -> instructions j st = Some st_j ->
                    Z.of_nat (length (output (self st_j))) - orig <> N) ->
    (S k <= fuel)%nat ->
    run_loop fuel true (Some N) orig st = (Ok false, st_k).
Proof.
  induction k as [|k IH]; intros fuel st st_k Hk Hcount Hfirst Hfuel.
  - destruct fuel as [|fuel]; [lia|].
    apply instructions_first in Hk as (st1 & Hnext & Hk).
    injection Hk as ->.
    cbn [run_loop]. unfold bind at 1, step, bind at 1. rewrite Hnext.
    unfold bind at 1, gets. cbn [andb].
    by rewrite bool_decide_eq_true_2 by (by rewrite Hcount).
  - destruct fuel as [|fuel]; [lia|].
    apply instructions_first in Hk as (st1 & Hnext & Hk).
    cbn [run_loop]. unfold bind at 1, step, bind at 1. rewrite Hnext.
    unfold bind at 1, gets. cbn [andb].
    rewrite bool_decide_eq_false_2.
    + unfold ret at 1. apply IH; [done | done | | lia].
      intros j st_j Hj Hinstr.
      apply (Hfirst (S j) st_j); [lia|].
      by rewrite (instructions_succ j st st1).
    + intros Heq. injection Heq as Heq.
      apply (Hfirst 1%nat st1); [lia | | done].
      by rewrite (instructions_succ 0 st st1).
Qed.

(** Whenever a bounded run returns "not yet halted", exactly the bound's
    number of outputs has been appended. *)
Lemma run_loop_suspended_count (N : option Z) (limit : bool) (orig : Z) (fuel : nat) :
  forall st st',
    run_loop fuel limit N orig st = (Ok false, st') ->
    Some (Z.of_nat (length (output (self st'))) - orig) = N.
Proof.
  induction fuel as [|fuel IH]; intros st st'; [discriminate|].
  cbn [run_loop]. unfold bind at 1, step, bind at 1.
  destruct (execute_next st) as [[[|]|e|] st1]; try discriminate.
  unfold bind at 1, gets.
  destruct limit; cbn [andb]; [|apply IH].
  destruct (bool_decide_reflect
              (Some (Z.of_nat (length (output (self st1))) - orig) = N)) as [Heq|_].
  - unfold ret. intros [= <-]. done.
  - apply IH.
Qed.

(** C4.  For every positive bound [N]: if the [k]-th instruction executed
    from the state at the call is the first after which [N] new outputs
    exist, then [run(N)] with fuel for [k] iterations returns "not yet
    halted" in exactly the state reached after those [k] instructions, so
    nothing further is executed.  In particular, on a program with two
    output instructions, [run(1)] suspends after one output with the
    pointer on the second output instruction, and an unbounded [run] from
    there halts and appends the remaining output. *)
Theorem run_bound_suspends :
  (forall (N : Z) (st st_k : state) (k fuel : nat),
      0 < N ->
      instructions k st = Some st_k ->
      Z.of_nat (length (output (self st_k)))
      = Z.of_nat (length (output (self st))) + N ->
      (forall j st_j, (j < k)%nat -> instructions j st = Some st_j ->
                      Z.of_nat (length (output (self st_j)))
                      <> Z.of_nat (length (output (self st))) + N) ->
      (k <= fuel)%nat ->
      run fuel (Some N) st = (Ok false, st_k))
  /\ (exists st1 st2,
        run 10 (Some 1) (boot [104; 1; 104; 2; 99] None) = (Ok false, st1)
        /\ output (self st1) = [1]
        /\ pointer (self st1) = 2
        /\ peek (pointer (self st1)) (self st1) = 104
        /\ run 10 None st1 = (Ok true, st2)
        /\ output (self st2) = [1; 2]).
Proof.
  split.
  - intros N st st_k k fuel HN Hk Hcount Hfirst Hfuel.
    destruct k as [|k].
    { injection Hk as <-. lia. }
    rewrite run_unfold.
    replace (Py.truthy (Some N)) with true
      by (unfold Py.truthy; by destruct (Z.eqb_spec N 0); [lia|]).
    apply (run_loop_suspends N _ k); [done | lia | | done].
    intros j st_j Hj Hinstr Heq.
    apply (Hfirst j st_j); [lia | done | lia].
  - exists (snd (run 10 (Some 1) (boot [104; 1; 104; 2; 99] None))).
    exists (snd (run 10 None (snd (run 10 (Some 1) (boot [104; 1; 104; 2; 99] None))))).
    split_and!; vm_compute; reflexivity.
Qed.

Lemma run_bound_suspends_witness :
  run 10 (Some 1) (boot [104; 1; 104; 2; 99] None)
  = (Ok false, snd (execute_next (boot [104; 1; 104; 2; 99] None))).
Proof.
  apply (proj1 run_bound_suspends 1 (boot [104; 1; 104; 2; 99] None) _ 1%nat 10%nat).
  - lia.
  - vm_compute. reflexivity.
  - vm_compute. reflexivity.
  - intros j st_j Hj Hinstr.
    assert (j = 0%nat) as -> by lia.
    injection Hinstr as <-. vm_compute. discriminate.
  - lia.
Defined.

(** ** Properties kept by every call *)

Lemma preserves_ret {A} (P : state -> Prop) (a : A) : preserves P (ret a).
Proof. by intros st. Qed.

Lemma preserves_raise {A} (P : state -> Prop) (e : exn) : preserves P (@raise A e).
Proof. by intros st. Qed.

Lemma preserves_timeout {A} (P : state -> Prop) : preserves P (@timeout A).
Proof. by intros st. Qed.

Lemma preserves_lift {A} (P : state -> Prop) (r : result A) : preserves P (lift r).
Proof. by intros st. Qed.

Lemma preserves_gets {A} (P : state -> Prop) (f : IntcodeComputer -> A) :
  preserves P (gets f).
Proof. by intros st. Qed.

Lemma preserves_bind {A B} (P : state -> Prop) (m : M A) (k : A -> M B) :
  preserves P m -> (forall a, preserves P (k a)) -> preserves P (bind m k).
Proof.
  intros Hm Hk st HP. unfold bind.
  specialize (Hm st HP).
  destruct (m st) as [[a|e|] st']; cbn in *; try done.
  by apply Hk.
Qed.

Lemma preserves_comprehension {A B} (P : state -> Prop) (l : list A) (f : A -> M B) :
  (forall x, preserves P (f x)) -> preserves P (comprehension l f).
Proof.
  intros Hf. induction l as [|x l IH]; cbn [comprehension].
  - apply preserves_ret.
  - apply preserves_bind; [apply Hf|]. intros y.
    apply preserves_bind; [apply IH|]. intros ys. apply preserves_ret.
Qed.

Lemma preserves_for_each {A} (P : state -> Prop) (l : list A) (f : A -> M unit) :
  (forall x, preserves P (f x)) -> preserves P (for_each l f).
Proof.
  intros Hf. induction l as [|x l IH]; cbn [for_each].
  - apply preserves_ret.
  - apply preserves_bind; [apply Hf|]. intros _. apply IH.
Qed.

Create HintDb preserves.

#[local] Hint Resolve preserves_ret preserves_raise preserves_timeout
  preserves_lift preserves_gets : preserves.

Ltac preserves_step :=
  first
    [ solve [eauto with preserves]
    | apply preserves_bind; [|intros ?]
    | apply preserves_comprehension; intros ?
    | match goal with
      | |- preserves _ (if ?b then _ else _) => destruct b
      | |- preserves _ (match ?x with _ => _ end) => destruct x
      | |- preserves _ (let (_, _) := ?x in _) => destruct x
      end ].

Section Preservation.

Variable P : state -> Prop.
Hypothesis P_getitem : forall k, preserves P (getitem k).
Hypothesis P_setitem : forall k v, preserves P (setitem k v).
Hypothesis P_output : forall o, preserves P (modify (with_output o)).
Hypothesis P_pointer : forall p, preserves P (modify (with_pointer p)).
Hypothesis P_relative_base : forall r, preserves P (modify (with_relative_base r)).
Hypothesis P_interactive : preserves P (modify (with_interactive false)).
Hypothesis P_inputs : forall i, preserves P (modify (with_inputs i)).
Hypothesis P_stdin : forall st console, P st -> P (mkState (self st) console (stores st)).

#[local] Hint Resolve P_getitem P_setitem P_output P_pointer P_relative_base
  P_interactive P_inputs : preserves.

Lemma preserves_get_input : preserves P get_input.
Proof.
  intros st HP. unfold get_input.
  destruct (interactive (self st)).
  - destruct (stdin st); cbn; [done|]. by apply P_stdin.
  - destruct (inputs (self st)) as [|x rest]; cbn; [done|].
    apply (P_inputs rest st HP).
Qed.

Lemma preserves_get_value (i : Instruction) : preserves P (get_value i).
Proof. unfold get_value. repeat preserves_step. Qed.

Lemma preserves_get_write_value (i : Instruction) : preserves P (get_write_value i).
Proof. unfold get_write_value. repeat preserves_step. Qed.

#[local] Hint Resolve preserves_get_input preserves_get_value
  preserves_get_write_value : preserves.

Lemma preserves_execute_opcode (opcode : Z) (params : list Instruction) :
  preserves P (execute_opcode opcode params).
Proof. unfold execute_opcode. repeat preserves_step. Qed.

Lemma preserves_dump : preserves P dump.
Proof. unfold dump. repeat preserves_step. Qed.

#[local] Hint Resolve preserves_execute_opcode preserves_dump : preserves.

Lemma preserves_execute_next : preserves P execute_next.
Proof. unfold execute_next, slice_program. repeat preserves_step. Qed.

#[local] Hint Resolve preserves_execute_next : preserves.

Lemma preserves_step_loop (limit : bool) (n : option Z) (orig : Z) :
  preserves P (step limit n orig).
Proof. unfold step. repeat preserves_step. Qed.

Lemma preserves_run_loop (fuel : nat) (limit : bool) (n : option Z) (orig : Z) :
  preserves P (run_loop fuel limit n orig).
Proof.
  induction fuel as [|fuel IH]; cbn [run_loop].
  - apply preserves_timeout.
  - apply preserves_bind; [apply preserves_step_loop|].
    intros [b|]; [apply preserves_ret | apply IH].
Qed.

Lemma preserves_run (fuel : nat) (n : option Z) : preserves P (run fuel n).
Proof.
  unfold run. apply preserves_bind; [apply preserves_gets|].
  intros out. apply preserves_run_loop.
Qed.

Lemma preserves_diagnostic : preserves P diagnostic.
Proof using Type. unfold diagnostic. repeat preserves_step. Qed.

Lemma preserves_add_input : forall val, preserves P (add_input val).
Proof using P_interactive P_inputs.
  fix IH 1. intros [z|l|t|]; cbn [add_input].
  - repeat preserves_step.
  - apply preserves_bind; [apply P_interactive|]. intros _.
    revert l. fix IHl 1. intros [|i r].
    + apply preserves_ret.
    + apply preserves_bind; [apply IH|]. intros _. apply IHl.
  - repeat preserves_step.
  - repeat preserves_step.
Qed.

Lemma preserves_copy : preserves P copy.
Proof using P_inputs.
  intros st HP. rewrite copy_spec. apply (P_inputs [] st HP).
Qed.

Lemma preserves_exec (o : op) (st : state) : P st -> P (exec o st).
Proof.
  intros HP. destruct o as [val|fuel n| | | |k v|k]; cbn [exec].
  - by apply preserves_add_input.
  - by apply preserves_run.
  - by apply preserves_diagnostic.
  - by apply preserves_copy.
  - rewrite copy_spec. by destruct st.
  - by apply P_setitem.
  - by apply P_getitem.
Qed.

Lemma preserves_exec_all (ops : list op) (st : state) : P st -> P (exec_all ops st).
Proof.
  revert st. induction ops as [|o ops IH]; intros st HP; [done|].
  cbn. apply IH. by apply preserves_exec.
Qed.

End Preservation.

Lemma queued_exec_all (ops : list op) (st : state) :
  queued st -> queued (exec_all ops st).
Proof.
  apply preserves_exec_all; try (by intros; intros ? ?); [|done].
  intros k st' Hq. change (snd (getitem k st')) with (touch k st').
  unfold queued. by rewrite (sv_interactive _ _ (touch_same_view k st')).
Qed.

Lemma zero_unless_stored_getitem (k : Z) : preserves zero_unless_stored (getitem k).
Proof.
  intros st Hz a Ha. fold (touch k st) in *.
  pose proof (touch_same_view k st) as Hv.
  rewrite (sv_peek _ _ Hv). apply Hz. by rewrite <- (sv_stores _ _ Hv).
Qed.

Lemma zero_unless_stored_setitem (k v : Z) : preserves zero_unless_stored (setitem k v).
Proof.
  intros st Hz a Ha. cbn in *. unfold peek. cbn.
  apply not_elem_of_union in Ha as [Hk Ha].
  rewrite lookup_insert_ne by set_solver. by apply Hz.
Qed.

Lemma zero_unless_stored_exec_all (ops : list op) (st : state) :
  zero_unless_stored st -> zero_unless_stored (exec_all ops st).
Proof.
  apply preserves_exec_all;
    auto using zero_unless_stored_getitem, zero_unless_stored_setitem;
    by intros; intros ? ?.
Qed.

Lemma stores_init_image (l : list Z) :
  forall (i : Z) (st : state) (a : Z),
    a ∈ stores (snd (for_each (Py.enumerate_from i l)
                       (fun '(index, v) => setitem index v) st))
    <-> a ∈ stores st \/ i <= a < i + Z.of_nat (length l).
Proof.
  induction l as [|x l IH]; intros i st a.
  - cbn. split; [by left | intros [?|?]; [done | lia]].
  - cbn [Py.enumerate_from for_each length]. unfold bind at 1, setitem at 1.
    rewrite IH. cbn [stores]. rewrite elem_of_union, elem_of_singleton.
    rewrite Nat2Z.inj_succ. intuition lia.
Qed.

Lemma zero_unless_stored_init (prog : list Z) (ins : option (list Z))
    (force dbg : bool) (console : list Z) :
  zero_unless_stored (init prog ins force dbg console).
Proof.
  unfold init.
  set (st0 := mkState blank console ∅).
  assert (Hz : zero_unless_stored
                 (snd (for_each (Py.enumerate prog) (fun '(index, i) => setitem index i) st0))).
  { apply preserves_for_each.
    - intros [index i]. apply zero_unless_stored_setitem.
    - intros a _. unfold peek. cbn. by rewrite lookup_empty. }
  intros a Ha. apply Hz, Ha.
Qed.

Lemma stores_add_input (a : Z) (val : value) :
  preserves (fun st => a ∉ stores st) (add_input val).
Proof. by apply preserves_add_input; intros; intros ? ?. Qed.

Lemma diagnostic_pure (st : state) : snd (diagnostic st) = st.
Proof.
  unfold diagnostic, bind, gets, raise, lift.
  by destruct (negb _).
Qed.

(** ** Input queue *)

Lemma add_input_int (z : Z) (st : state) :
  add_input (VInt z) st
  = (Ok tt, mkState (with_inputs (inputs (self st) ++ [z])
                       (with_interactive false (self st)))
                    (stdin st) (stores st)).
Proof. reflexivity. Qed.

Lemma add_input_items (l : list Z) :
  forall (c : IntcodeComputer) (console : list Z) (ghost : gset Z),
    interactive c = false ->
    (fix loop (l : list value) : M unit :=
       match l with
       | [] => ret tt
       | i :: r => add_input i >> loop r
       end) (VInt <$> l) (mkState c console ghost)
    = (Ok tt, mkState (with_inputs (inputs c ++ l) c) console ghost).
Proof.
  induction l as [|z l IH]; intros c console ghost Hq.
  - cbn. rewrite app_nil_r. by destruct c.
  - cbn [fmap list_fmap]. unfold bind at 1. rewrite add_input_int. cbn [self stdin stores].
    rewrite IH by done. cbn. rewrite <- app_assoc. by destruct c; cbn in *; subst.
Qed.

Lemma add_input_flag_first (val : value) (st : state) :
  add_input val st = add_input val (snd (modify (with_interactive false) st)).
Proof. by destruct val. Qed.

Lemma add_input_queued (val : value) (st : state) : queued (snd (add_input val st)).
Proof.
  rewrite add_input_flag_first.
  apply preserves_add_input; [by intros ? ? | by intros ? ? ? | done].
Qed.

Lemma add_input_list (st : state) (l : list Z) :
  add_input (VList (VInt <$> l)) st
  = (Ok tt, mkState (with_inputs (inputs (self st) ++ l)
                       (with_interactive false (self st)))
                    (stdin st) (stores st)).
Proof.
  cbn [add_input]. unfold bind at 1, modify at 1. by rewrite add_input_items.
Qed.

(** C8 (as amended).  [add_input] of an integer, or of a list of integers,
    returns normally; afterwards the pending inputs are the ones pending
    before followed by the new value(s) in order, the interactive flag is
    off, and memory, output log, pointer, relative base, debug flag and
    console are what they were.  After any [add_input] the interactive
    flag stays off through every later sequence of calls, on the machine
    and on its copies. *)
Theorem add_input_appends :
  (forall (st : state) (z : Z),
      fst (add_input (VInt z) st) = Ok tt
      /\ inputs (self (snd (add_input (VInt z) st))) = inputs (self st) ++ [z]
      /\ interactive (self (snd (add_input (VInt z) st))) = false
      /\ program (self (snd (add_input (VInt z) st))) = program (self st)
      /\ output (self (snd (add_input (VInt z) st))) = output (self st)
      /\ pointer (self (snd (add_input (VInt z) st))) = pointer (self st)
      /\ relative_base (self (snd (add_input (VInt z) st))) = relative_base (self st)
      /\ debug (self (snd (add_input (VInt z) st))) = debug (self st)
      /\ stdin (snd (add_input (VInt z) st)) = stdin st
      /\ stores (snd (add_input (VInt z) st)) = stores st)
  /\ (forall (st : state) (l : list Z),
      fst (add_input (VList (VInt <$> l)) st) = Ok tt
      /\ inputs (self (snd (add_input (VList (VInt <$> l)) st))) = inputs (self st) ++ l
      /\ interactive (self (snd (add_input (VList (VInt <$> l)) st))) = false
      /\ program (self (snd (add_input (VList (VInt <$> l)) st))) = program (self st)
      /\ output (self (snd (add_input (VList (VInt <$> l)) st))) = output (self st)
      /\ pointer (self (snd (add_input (VList (VInt <$> l)) st))) = pointer (self st)
      /\ relative_base (self (snd (add_input (VList (VInt <$> l)) st)))
         = relative_base (self st)
      /\ debug (self (snd (add_input (VList (VInt <$> l)) st))) = debug (self st)
      /\ stdin (snd (add_input (VList (VInt <$> l)) st)) = stdin st
      /\ stores (snd (add_input (VList (VInt <$> l)) st)) = stores st)
  /\ (forall (st : state) (val : value) (ops : list op),
      interactive (self (exec_all ops (snd (add_input val st)))) = false).
Proof.
  split_and!.
  - intros st z. rewrite add_input_int. by split_and!.
  - intros st l. rewrite add_input_list. by split_and!.
  - intros st val ops. apply queued_exec_all, add_input_queued.
Qed.

(** C8 as stated fails on a sequence of integers that is not a list: for
    the tuple [(1, 2)] [add_input] raises [TypeError] and queues nothing. *)
Lemma add_input_rejects_tuple :
  fst (add_input (VTuple [VInt 1; VInt 2]) (boot [99] None))
  = Raise TypeError_provide_int
  /\ inputs (self (snd (add_input (VTuple [VInt 1; VInt 2]) (boot [99] None))))
     = inputs (self (boot [99] None)).
Proof. split; reflexivity. Qed.

(** ** Memory reads *)

Lemma stores_exec_avoids (st : state) (o : op) (a : Z) :
  a ∉ stores st -> avoids a o -> a ∉ stores (exec o st).
Proof.
  intros Ha Ho. destruct o as [val|fuel n| | | |k v|k]; cbn [exec avoids] in *.
  - by apply stores_add_input.
  - done.
  - by rewrite diagnostic_pure.
  - by rewrite copy_spec.
  - by rewrite copy_spec.
  - cbn. apply not_elem_of_union. split; [|done].
    apply not_elem_of_singleton. by intros ->.
  - change (snd (getitem k st)) with (touch k st).
    by rewrite (sv_stores _ _ (touch_same_view k st)).
Qed.

(** C9.  A read of memory never fails, at any address of any machine.  On
    a machine just built, no address outside the program image counts as
    written.  A call other than [run] writes no address except the one an
    explicit store names.  And after every sequence of calls (runs,
    copies, stores, loads, added inputs) on a machine built from any
    program image, every address that nothing has written reads as zero. *)
Theorem unwritten_reads_zero :
  (forall (st : state) (k : Z), exists v, getitem k st = (Ok v, touch k st))
  /\ (forall prog ins force dbg console (a : Z),
        a < 0 \/ Z.of_nat (length prog) <= a ->
        a ∉ stores (init prog ins force dbg console))
  /\ (forall (st : state) (o : op) (a : Z),
        a ∉ stores st -> avoids a o -> a ∉ stores (exec o st))
  /\ (forall prog ins force dbg console (ops : list op) (a : Z),
        a ∉ stores (exec_all ops (init prog ins force dbg console)) ->
        getitem a (exec_all ops (init prog ins force dbg console))
        = (Ok 0, touch a (exec_all ops (init prog ins force dbg console)))).
Proof.
  split_and!.
  - intros st k. exists (peek k (self st)). apply getitem_spec.
  - intros prog ins force dbg console a Ha Hin.
    unfold init in Hin. cbn [stores] in Hin.
    apply stores_init_image in Hin as [Hin|Hin]; [set_solver | lia].
  - apply stores_exec_avoids.
  - intros prog ins force dbg console ops a Ha.
    rewrite getitem_spec. do 2 f_equal.
    by apply (zero_unless_stored_exec_all ops _ (zero_unless_stored_init _ _ _ _ _)).
Qed.

Lemma unwritten_reads_zero_witness :
  fst (getitem 100
         (exec_all [OpRun 10 None; OpClone; OpStore 7 5; OpAddInput (VInt 1)]
            (boot [1; 0; 0; 0; 99] None)))
  = Ok 0
  /\ 5 ∉ stores (boot [1; 0; 0; 0; 99] None).
Proof.
  unfold boot. split.
  - rewrite (proj2 (proj2 (proj2 unwritten_reads_zero)) [1; 0; 0; 0; 99] None false false []
               [OpRun 10 None; OpClone; OpStore 7 5; OpAddInput (VInt 1)] 100);
      [reflexivity|].
    intros Hin. apply (bool_decide_pack _) in Hin. vm_compute in Hin. destruct Hin.
  - apply (proj1 (proj2 unwritten_reads_zero) [1; 0; 0; 0; 99] None false false [] 5).
    right. cbn. lia.
Defined.

(** * Further properties of the interpreter *)

(** ** Operand counts and instruction words *)

Lemma valid_opcodes_cases (op : Z) :
  op ∈ valid_opcodes ->
  op = 1 \/ op = 2 \/ op = 3 \/ op = 4 \/ op = 5 \/ op = 6 \/ op = 7 \/ op = 8
  \/ op = 9 \/ op = 99.
Proof.
  unfold valid_opcodes. rewrite !elem_of_cons, elem_of_nil. tauto.
Qed.

(** X1.  The operand-count table of [num_parameters] covers exactly the
    opcodes [run] accepts: on each of them it returns a count between 0 and
    3, and its own [ValueError] is raised exactly on the others. *)
Theorem num_parameters_valid (op : Z) :
  (op ∈ valid_opcodes -> exists n, num_parameters op = Ok n /\ 0 <= n <= 3)
  /\ (op ∉ valid_opcodes -> num_parameters op = Raise (ValueError_invalid_opcode op)).
Proof.
  split.
  - intros Hop.
    destruct (valid_opcodes_cases op Hop)
      as [->|[->|[->|[->|[->|[->|[->|[->|[->| ->]]]]]]]]];
      eexists; (split; [reflexivity | lia]).
  - intros Hop. unfold num_parameters.
    destruct (Z.eqb_spec op 99) as [->|_].
    { exfalso. apply Hop. unfold valid_opcodes.
      rewrite !elem_of_cons, elem_of_nil. tauto. }
    assert (Hsub : forall l : list Z, l ⊆ valid_opcodes -> bool_decide (op ∈ l) = false).
    { intros l Hl. apply bool_decide_eq_false_2. intros Hin. by apply Hop, Hl. }
    rewrite !Hsub; [done | | |]; unfold valid_opcodes; intros x;
      rewrite !elem_of_cons, !elem_of_nil; tauto.
Qed.

Lemma num_parameters_valid_witness :
  (exists n, num_parameters 7 = Ok n /\ 0 <= n <= 3)
  /\ num_parameters 42 = Raise (ValueError_invalid_opcode 42).
Proof.
  split.
  - apply (proj1 (num_parameters_valid 7)).
    apply (bool_decide_unpack _). vm_compute. exact I.
  - apply (proj2 (num_parameters_valid 42)).
    intros Hin. apply (bool_decide_pack _) in Hin. vm_compute in Hin. destruct Hin.
Defined.

(** X2.  Decoding inverts encoding: the word built from a two-digit opcode
    and three one-digit modes decodes to that opcode and those modes, in
    operand order. *)
Theorem parse_opcode_encode (op m0 m1 m2 : Z) :
  0 <= op < 100 -> 0 <= m0 < 10 -> 0 <= m1 < 10 -> 0 <= m2 < 10 ->
  parse_opcode (encode op m0 m1 m2) = Ok (op, m0, m1, m2).
Proof.
  intros Hop H0 H1 H2. unfold encode.
  rewrite parse_opcode_five_digits by lia.
  unfold decode_lsd_first. do 4 f_equal; Z.div_mod_to_equations; lia.
Qed.

Lemma parse_opcode_encode_witness :
  parse_opcode (encode 8 2 0 1) = Ok (8, 2, 0, 1).
Proof.
  apply (parse_opcode_encode 8 2 0 1); lia.
Defined.

(** ** Construction *)

Lemma peek_poke (k v a : Z) (st : state) :
  peek a (self (poke k v st)) = if bool_decide (a = k) then v else peek a (self st).
Proof.
  unfold poke, setitem, peek. cbn.
  destruct (bool_decide_reflect (a = k)) as [->|Hne].
  - by rewrite lookup_insert_eq.
  - by rewrite lookup_insert_ne.
Qed.

Lemma peek_image (l : list Z) :
  forall (i : Z) (st : state) (a : Z),
    peek a (self (snd (for_each (Py.enumerate_from i l)
                          (fun '(index, v) => setitem index v) st)))
    = if bool_decide (i <= a < i + Z.of_nat (length l))
      then default 0 (l !! Z.to_nat (a - i))
      else peek a (self st).
Proof.
  induction l as [|x l IH]; intros i st a.
  - cbn. by rewrite bool_decide_eq_false_2 by lia.
  - cbn [Py.enumerate_from length].
    change (for_each ((i, x) :: Py.enumerate_from (i + 1) l)
              (fun '(index, v) => setitem index v) st)
      with (for_each (Py.enumerate_from (i + 1) l)
              (fun '(index, v) => setitem index v) (poke i x st)).
    rewrite IH, peek_poke, Nat2Z.inj_succ.
    destruct (bool_decide_reflect (i + 1 <= a < i + 1 + Z.of_nat (length l))) as [Hin|Hout].
    + rewrite bool_decide_eq_true_2 by lia.
      replace (Z.to_nat (a - i)) with (S (Z.to_nat (a - (i + 1)))) by lia. done.
    + destruct (bool_decide_reflect (a = i)) as [->|Hne].
      * rewrite bool_decide_eq_true_2 by lia. by rewrite Z.sub_diag.
      * by rewrite bool_decide_eq_false_2 by lia.
Qed.

(** X3.  The constructor snapshots the program image: address [a] of a new
    machine reads the [a]-th word of the image, and zero below address 0
    and past the image's end.  The pointer and the relative base start at
    0, the output log is empty, the pending inputs are the ones given, and
    the machine is interactive exactly when no input was given and
    [force_uninteractive] is off. *)
Theorem init_snapshot (prog : list Z) (ins : option (list Z)) (force dbg : bool)
    (console : list Z) (a : Z) :
  let st := init prog ins force dbg console in
  peek a (self st) = (if a <? 0 then 0 else default 0 (prog !! Z.to_nat a))
  /\ pointer (self st) = 0
  /\ relative_base (self st) = 0
  /\ output (self st) = []
  /\ inputs (self st) = default [] ins
  /\ interactive (self st)
     = bool_decide (default [] ins = []) && negb force
  /\ debug (self st) = dbg
  /\ stdin st = console.
Proof.
  intros st. split_and!; try reflexivity.
  - unfold st, init, Py.enumerate.
    change (peek a (self (mkState ?c _ _))) with (peek a c).
    unfold peek at 1. cbn [program with_debug with_relative_base with_inputs
      with_interactive with_pointer with_output].
    fold (peek a (self (snd (for_each (Py.enumerate_from 0 prog)
                               (fun '(index, i) => setitem index i)
                               (mkState blank console ∅))))).
    rewrite peek_image. unfold peek. cbn [self program blank].
    rewrite lookup_empty. cbn [default].
    destruct (Z.ltb_spec a 0).
    + by rewrite bool_decide_eq_false_2 by lia.
    + destruct (bool_decide_reflect (0 <= a < 0 + Z.of_nat (length prog))) as [Hin|Hout].
      * by rewrite Z.sub_0_r.
      * rewrite lookup_ge_None_2; [done | lia].
  - unfold st, init. cbn. by destruct ins as [[|x l]|].
  - unfold st, init. cbn [stdin].
    apply (preserves_for_each (fun s => stdin s = console)); [|done].
    by intros [index i] s Hs.
Qed.

(** ** The debug dump *)

Lemma foldr_max_bound (ks : list Z) (k0 x : Z) :
  x ∈ k0 :: ks -> x <= foldr Z.max k0 ks.
Proof.
  induction ks as [|k1 ks IH]; cbn [foldr]; intros Hin.
  - apply elem_of_cons in Hin as [->|Hin]; [lia|]. by apply elem_of_nil in Hin.
  - apply elem_of_cons in Hin as [->|Hin].
    + assert (k0 <= foldr Z.max k0 ks) by (apply IH; left). lia.
    + apply elem_of_cons in Hin as [->|Hin]; [lia|].
      assert (x <= foldr Z.max k0 ks) by (apply IH; by right). lia.
Qed.

Lemma max_key_bound (d : gmap Z Z) (m k : Z) :
  max_key d = Some m -> is_Some (d !! k) -> k <= m.
Proof.
  unfold max_key. intros Hm [v Hk].
  apply elem_of_map_to_list in Hk.
  assert (Hin : k ∈ (map_to_list d).*1).
  { apply list_elem_of_fmap. by exists (k, v). }
  destruct ((map_to_list d).*1) as [|k0 ks]; [discriminate|].
  injection Hm as <-. by apply foldr_max_bound.
Qed.

Lemma comprehension_getitem_keys (l : list Z) :
  forall (st : state) (k : Z),
    k ∈ l -> is_Some (program (self (snd (comprehension l getitem st))) !! k).
Proof.
  induction l as [|x l IH]; intros st k Hk; [by apply elem_of_nil in Hk|].
  assert (Hsnd : snd (comprehension (x :: l) getitem st)
                 = snd (comprehension l getitem (touch x st))).
  { cbn [comprehension]. unfold bind at 1. rewrite getitem_spec.
    destruct (comprehension_getitem l (touch x st)) as (st' & Hrun & _).
    unfold bind at 1. by rewrite Hrun. }
  rewrite Hsnd.
  apply elem_of_cons in Hk as [->|Hk]; [|by apply IH].
  destruct (comprehension_getitem l (touch x st)) as (st' & Hrun & Hview).
  rewrite Hrun. cbn [snd].
  exists (peek x (self st)).
  apply (lookup_weaken _ _ _ _ (touch_lookup x st) (sv_keys _ _ Hview)).
Qed.



(** ** Arguments of [add_input] *)

Lemma queue_more_nil (st : state) :
  interactive (self st) = false -> queue_more [] st = st.
Proof.
  destruct st as [[prog out ptr int ins rb dbg] console ghost]. cbn.
  intros ->. unfold queue_more. cbn. by rewrite app_nil_r.
Qed.

Lemma queue_more_app (zs zs' : list Z) (st : state) :
  queue_more zs' (queue_more zs st) = queue_more (zs ++ zs') st.
Proof.
  unfold queue_more. cbn. by rewrite app_assoc.
Qed.

Lemma ints_of_cons (i : value) (r : list value) :
  ints_of (VList (i :: r))
  = match ints_of i with
    | (zs, true) => let '(zs', ok) := ints_of (VList r) in (zs ++ zs', ok)
    | (zs, false) => (zs, false)
    end.
Proof. reflexivity. Qed.

Lemma add_input_ints_of :
  forall (val : value) (st : state),
    add_input val st = (outcome (ints_of val).2, queue_more (ints_of val).1 st).
Proof.
  fix IH 1. intros [z|l|t|] st.
  - reflexivity.
  - cbn [add_input]. unfold bind at 1, modify at 1. cbv beta iota.
    set (st1 := mkState (with_interactive false (self st)) (stdin st) (stores st)).
    change (queue_more ?zs st) with (queue_more zs st1).
    assert (Hq : interactive (self st1) = false) by done.
    revert Hq. generalize st1. clear st st1.
    revert l. fix IHl 1. intros [|i r] st Hq.
    + cbn. by rewrite queue_more_nil.
    + rewrite ints_of_cons. unfold bind at 1. rewrite (IH i st).
      destruct (ints_of i) as [zs [|]]; cbn [fst snd outcome]; [|done].
      rewrite (IHl r (queue_more zs st)) by done.
      destruct (ints_of (VList r)) as [zs' ok].
      cbn [fst snd]. by rewrite queue_more_app.
  - cbn [add_input ints_of]. unfold bind at 1. cbn.
    unfold queue_more. by rewrite app_nil_r.
  - cbn [add_input ints_of]. unfold bind at 1. cbn.
    unfold queue_more. by rewrite app_nil_r.
Qed.

(** X5.  [add_input] walks its argument depth first: integers, at any
    nesting depth of lists, are appended to the pending inputs in order.
    At the first object that is neither an [int] nor a [list] it raises
    [TypeError], keeping the integers appended so far; the interactive
    flag is cleared even then. *)
Theorem add_input_flattens (val : value) (st : state) :
  add_input val st
  = ((if (ints_of val).2 then Ok tt else Raise TypeError_provide_int),
     mkState (with_inputs (inputs (self st) ++ (ints_of val).1)
                (with_interactive false (self st)))
             (stdin st) (stores st)).
Proof. apply add_input_ints_of. Qed.

(** X6.  A list whose integers are followed by an object of another type
    is half consumed: the integers before the object are queued, the ones
    after it are not, and [TypeError] is raised. *)
Theorem add_input_partial (before after : list Z) (st : state) :
  add_input (VList ((VInt <$> before) ++ VOther :: (VInt <$> after))) st
  = (Raise TypeError_provide_int,
     mkState (with_inputs (inputs (self st) ++ before)
                (with_interactive false (self st)))
             (stdin st) (stores st)).
Proof.
  rewrite add_input_ints_of.
  assert (Hints : ints_of (VList ((VInt <$> before) ++ VOther :: (VInt <$> after)))
                  = (before, false)).
  { induction before as [|z before IH]; [reflexivity|].
    rewrite fmap_cons, <- app_comm_cons, ints_of_cons. by rewrite IH. }
  by rewrite Hints.
Qed.

(** ** What a run can change *)

Create HintDb moves.

Section Progress.

Variable R : state -> state -> Prop.
Hypothesis R_refl : forall st, R st st.
Hypothesis R_trans : forall st1 st2 st3, R st1 st2 -> R st2 st3 -> R st1 st3.
Hypothesis R_touch : forall k st, R st (touch k st).
Hypothesis R_poke : forall k v st, R st (poke k v st).
Hypothesis R_emit : forall a st, R st (emit a st).
Hypothesis R_goto : forall p st, R st (goto p st).
Hypothesis R_rebase : forall r st, R st (rebase r st).
Hypothesis R_get_input : forall st, R st (snd (get_input st)).

Lemma moves_ret {A} (a : A) : moves R (ret a).
Proof using R_refl. intros st. apply R_refl. Qed.

Lemma moves_raise {A} (e : exn) : moves R (@raise A e).
Proof using R_refl. intros st. apply R_refl. Qed.

Lemma moves_timeout {A} : moves R (@timeout A).
Proof using R_refl. intros st. apply R_refl. Qed.

Lemma moves_lift {A} (r : result A) : moves R (lift r).
Proof using R_refl. intros st. apply R_refl. Qed.

Lemma moves_gets {A} (f : IntcodeComputer -> A) : moves R (gets f).
Proof using R_refl. intros st. apply R_refl. Qed.

Lemma moves_bind {A B} (m : M A) (k : A -> M B) :
  moves R m -> (forall a, moves R (k a)) -> moves R (bind m k).
Proof using R_refl R_trans.
  intros Hm Hk st. unfold bind. specialize (Hm st).
  destruct (m st) as [[a|e|] st']; cbn in *; try done.
  eapply R_trans; [exact Hm | apply Hk].
Qed.

Lemma moves_comprehension {A B} (l : list A) (f : A -> M B) :
  (forall x, moves R (f x)) -> moves R (comprehension l f).
Proof using R_refl R_trans.
  intros Hf. induction l as [|x l IH]; cbn [comprehension].
  - apply moves_ret.
  - apply moves_bind; [apply Hf|]. intros y.
    apply moves_bind; [apply IH|]. intros ys. apply moves_ret.
Qed.

Lemma moves_getitem (k : Z) : moves R (getitem k).
Proof using R_touch. intros st. apply R_touch. Qed.

Lemma moves_setitem (k v : Z) : moves R (setitem k v).
Proof using R_poke. intros st. apply R_poke. Qed.

Lemma moves_pointer (p : Z) : moves R (modify (with_pointer p)).
Proof using R_goto. intros st. apply R_goto. Qed.

Lemma moves_relative_base (r : Z) : moves R (modify (with_relative_base r)).
Proof using R_rebase. intros st. apply R_rebase. Qed.

Lemma moves_get_input : moves R get_input.
Proof using R_get_input. intros st. apply R_get_input. Qed.

Lemma moves_append {B} (a : Z) (k : unit -> M B) :
  (forall u, moves R (k u)) ->
  moves R (bind (gets output) (fun out => bind (modify (with_output (out ++ [a]))) k)).
Proof using R_trans R_emit.
  intros Hk st.
  change (R st (snd (k tt (emit a st)))).
  eapply R_trans; [apply R_emit | apply Hk].
Qed.

#[local] Hint Resolve moves_ret moves_raise moves_timeout moves_lift moves_gets
  moves_getitem moves_setitem moves_pointer moves_relative_base
  moves_get_input : moves.

Ltac moves_step :=
  first
    [ solve [eauto with moves]
    | apply moves_append; intros ?
    | apply moves_bind; [|intros ?]
    | apply moves_comprehension; intros ?
    | match goal with
      | |- moves R (if ?b then _ else _) => destruct b
      | |- moves R (match ?x with _ => _ end) => destruct x
      | |- moves R (let (_, _) := ?x in _) => destruct x
      end ].

Lemma moves_get_value (i : Instruction) : moves R (get_value i).
Proof using R_refl R_trans R_touch. unfold get_value. repeat moves_step. Qed.

Lemma moves_get_write_value (i : Instruction) : moves R (get_write_value i).
Proof using R_refl R_trans. unfold get_write_value. repeat moves_step. Qed.

#[local] Hint Resolve moves_get_value moves_get_write_value : moves.

Lemma moves_execute_opcode (opcode : Z) (params : list Instruction) :
  moves R (execute_opcode opcode params).
Proof using All. unfold execute_opcode. repeat moves_step. Qed.

Lemma moves_dump : moves R dump.
Proof using R_refl R_trans R_touch. unfold dump. repeat moves_step. Qed.

#[local] Hint Resolve moves_execute_opcode moves_dump : moves.

Lemma moves_execute_next : moves R execute_next.
Proof using All. unfold execute_next, slice_program. repeat moves_step. Qed.

Lemma moves_instructions (k : nat) (st st_k : state) :
  instructions k st = Some st_k -> R st st_k.
Proof using All.
  revert st. induction k as [|k IH]; intros st.
  - intros [= <-]. apply R_refl.
  - cbn [instructions]. pose proof (moves_execute_next st) as Hnext.
    destruct (execute_next st) as [[[|]|e|] st1]; try discriminate.
    intros Hk. eapply R_trans; [exact Hnext | by apply IH].
Qed.

#[local] Hint Resolve moves_execute_next : moves.

Lemma moves_step_loop (limit : bool) (n : option Z) (orig : Z) :
  moves R (step limit n orig).
Proof using All. unfold step. repeat moves_step. Qed.

Lemma moves_run_loop (fuel : nat) (limit : bool) (n : option Z) (orig : Z) :
  moves R (run_loop fuel limit n orig).
Proof using All.
  induction fuel as [|fuel IH]; cbn [run_loop].
  - apply moves_timeout.
  - apply moves_bind; [apply moves_step_loop|].
    intros [b|]; [apply moves_ret | apply IH].
Qed.

Lemma moves_run (fuel : nat) (n : option Z) : moves R (run fuel n).
Proof using All.
  unfold run. apply moves_bind; [apply moves_gets|].
  intros out. apply moves_run_loop.
Qed.

End Progress.

Lemma extends_refl (st : state) : extends st st.
Proof. by constructor. Qed.

Lemma extends_trans (st1 st2 st3 : state) :
  extends st1 st2 -> extends st2 st3 -> extends st1 st3.
Proof.
  intros H12 H23. constructor.
  - transitivity (output (self st2)); [apply H12 | apply H23].
  - transitivity (dom (program (self st2))); [apply H12 | apply H23].
  - transitivity (stdin st2); [apply H23 | apply H12].
  - rewrite (ext_debug _ _ H23). apply H12.
Qed.

Lemma run_frame_refl (st : state) : run_frame st st.
Proof. constructor; [apply extends_refl | done | done]. Qed.

Lemma run_frame_trans (st1 st2 st3 : state) :
  run_frame st1 st2 -> run_frame st2 st3 -> run_frame st1 st3.
Proof.
  intros H12 H23. constructor.
  - eapply extends_trans; [apply H12 | apply H23].
  - transitivity (inputs (self st2)); [apply H23 | apply H12].
  - rewrite (rf_interactive _ _ H23). apply H12.
Qed.

Lemma same_view_run_frame (st st' : state) : same_view st st' -> run_frame st st'.
Proof.
  intros Hv. constructor; [constructor|..].
  - by rewrite (sv_output _ _ Hv).
  - apply subseteq_dom, Hv.
  - by rewrite (sv_stdin _ _ Hv).
  - apply Hv.
  - by rewrite (sv_inputs _ _ Hv).
  - apply Hv.
Qed.

Lemma run_frame_get_input (st : state) : run_frame st (snd (get_input st)).
Proof.
  unfold get_input. destruct (interactive (self st)) eqn:Hint.
  - destruct (stdin st) as [|x rest] eqn:Hin; cbn [snd]; [apply run_frame_refl|].
    constructor; [constructor|..]; cbn; try done.
    rewrite Hin. by apply suffix_cons_r.
  - destruct (inputs (self st)) as [|x rest] eqn:Hin; cbn [snd]; [apply run_frame_refl|].
    constructor; [constructor|..]; cbn; try done.
    rewrite Hin. by apply suffix_cons_r.
Qed.

Lemma run_frame_run (fuel : nat) (num_outputs : option Z) (st : state) :
  run_frame st (snd (run fuel num_outputs st)).
Proof.
  apply (moves_run run_frame run_frame_refl run_frame_trans).
  - intros k s. apply same_view_run_frame, touch_same_view.
  - intros k v s. constructor; [constructor|..]; cbn; try done.
    apply dom_insert_subseteq.
  - intros a s. constructor; [constructor|..]; cbn; try done.
    by apply prefix_app_r.
  - intros p s. constructor; [constructor|..]; by cbn.
  - intros r s. constructor; [constructor|..]; by cbn.
  - apply run_frame_get_input.
Qed.

(** X7.  Whatever [run] does and however it ends (halted, suspended,
    raised, or still running when the fuel ends), it only appends to the
    output log, only consumes pending inputs and console lines from the
    front, removes no key from the memory dict, and never changes the
    interactive or debug flag. *)
Theorem run_only_consumes (fuel : nat) (num_outputs : option Z) (st : state) :
  run_frame st (snd (run fuel num_outputs st)).
Proof. apply run_frame_run. Qed.

Lemma extends_exec (o : op) (st : state) : extends st (exec o st).
Proof.
  destruct o as [val|fuel n| | | |k v|k]; cbn [exec].
  - rewrite add_input_ints_of. by constructor.
  - apply run_frame_run.
  - rewrite diagnostic_pure. apply extends_refl.
  - rewrite copy_spec. by constructor.
  - rewrite copy_spec. by constructor.
  - constructor; cbn; try done. apply dom_insert_subseteq.
  - apply same_view_run_frame, touch_same_view.
Qed.

(** X8.  Through any sequence of calls on a machine and its copies
    ([add_input], [run], [diagnostic], [copy], stores and loads) the output
    log is append-only: the log before is a prefix of the log after.
    Likewise no key ever leaves the memory dict, console lines are only
    consumed, and the debug flag stays. *)
Theorem calls_only_extend (ops : list op) (st : state) :
  extends st (exec_all ops st).
Proof.
  revert st. induction ops as [|o ops IH]; intros st; [apply extends_refl|].
  cbn. eapply extends_trans; [apply extends_exec | apply IH].
Qed.

Lemma run_loop_suspended_limit (N : option Z) (limit : bool) (orig : Z) (fuel : nat) :
  forall st st', run_loop fuel limit N orig st = (Ok false, st') -> limit = true.
Proof.
  induction fuel as [|fuel IH]; intros st st'; [discriminate|].
  cbn [run_loop]. unfold bind at 1, step, bind at 1.
  destruct (execute_next st) as [[[|]|e|] st1]; try discriminate.
  unfold bind at 1, gets.
  destruct limit; [done|]. cbn [andb]. apply IH.
Qed.

(** X9.  [run] returns "not yet halted" only under a positive bound, and
    then exactly that many outputs have been appended since the call
    began: a missing, zero or negative bound never suspends a run. *)
Theorem suspended_only_on_bound (fuel : nat) (num_outputs : option Z)
    (st st' : state) :
  run fuel num_outputs st = (Ok false, st') ->
  exists N, num_outputs = Some N /\ 0 < N
            /\ Z.of_nat (length (output (self st')))
               = Z.of_nat (length (output (self st))) + N.
Proof.
  intros Hrun.
  pose proof (run_frame_run fuel num_outputs st) as Hframe.
  rewrite Hrun in Hframe. cbn [snd] in Hframe.
  pose proof (prefix_length _ _ (ext_output _ _ (rf_extends _ _ Hframe))) as Hlen.
  rewrite run_unfold in Hrun.
  pose proof (run_loop_suspended_limit _ _ _ _ _ _ Hrun) as Hlimit.
  pose proof (run_loop_suspended_count _ _ _ _ _ _ Hrun) as Hcount.
  destruct num_outputs as [N|]; [|discriminate].
  exists N. injection Hcount as Hcount.
  unfold Py.truthy in Hlimit.
  destruct (Z.eqb_spec N 0); [discriminate|].
  split_and!; [done | lia | lia].
Qed.

Lemma suspended_only_on_bound_witness :
  exists N, Some 1 = Some N /\ 0 < N
            /\ Z.of_nat (length (output (self (snd (run 10 (Some 1)
                                   (boot [104; 1; 104; 2; 99] None))))))
               = Z.of_nat (length (output (self (boot [104; 1; 104; 2; 99] None)))) + N.
Proof.
  apply (suspended_only_on_bound 10 (Some 1) (boot [104; 1; 104; 2; 99] None)).
  vm_compute. reflexivity.
Defined.

(** ** Interactive machines have no pending input *)

Lemma console_only_run (fuel : nat) (n : option Z) (st : state) :
  console_only st -> console_only (snd (run fuel n st)).
Proof.
  apply (moves_run (fun s s' => console_only s -> console_only s')); try by eauto.
  - intros k s Hs. unfold console_only.
    pose proof (touch_same_view k s) as Hv.
    by rewrite (sv_interactive _ _ Hv), (sv_inputs _ _ Hv).
  - intros s Hs. unfold get_input.
    destruct (interactive (self s)) eqn:Hint.
    + destruct (stdin s); cbn [snd]; [done|].
      intros _. cbn. by apply Hs.
    + destruct (inputs (self s)); cbn [snd]; [done|].
      intros Hon. cbn in Hon. congruence.
Qed.

Lemma console_only_exec (o : op) (st : state) :
  console_only st -> console_only (exec o st).
Proof.
  intros Hst. destruct o as [val|fuel n| | | |k v|k]; cbn [exec].
  - rewrite add_input_ints_of. by intros Hint.
  - by apply console_only_run.
  - by rewrite diagnostic_pure.
  - rewrite copy_spec. by intros Hint.
  - rewrite copy_spec. by destruct st.
  - done.
  - unfold console_only.
    change (snd (getitem k st)) with (touch k st).
    pose proof (touch_same_view k st) as Hv.
    by rewrite (sv_interactive _ _ Hv), (sv_inputs _ _ Hv).
Qed.

(** X10.  A machine in interactive mode never has a pending queued input:
    this holds right after construction and after every sequence of calls,
    so an interactive read never skips over an input that was queued. *)
Theorem console_only_always (prog : list Z) (ins : option (list Z))
    (force dbg : bool) (console : list Z) (ops : list op) :
  console_only (exec_all ops (init prog ins force dbg console)).
Proof.
  assert (Hinit : console_only (init prog ins force dbg console)).
  { unfold console_only, init. cbn. destruct ins as [[|x l]|]; cbn; done. }
  revert Hinit. generalize (init prog ins force dbg console).
  induction ops as [|o ops IH]; intros st Hst; [done|].
  cbn. by apply IH, console_only_exec.
Qed.

(** ** A small logic of calls, up to materialised cells *)

Lemma returns_ret {A} (a : A) (st : state) : returns (ret a) st a st.
Proof. intros s Hs. by exists s. Qed.

Lemma returns_lift {A} (a : A) (st : state) : returns (lift (Ok a)) st a st.
Proof. intros s Hs. by exists s. Qed.

Lemma returns_bind {A B} (m : M A) (k : A -> M B) (st mid fin : state) (a : A) (b : B) :
  returns m st a mid -> returns (k a) mid b fin -> returns (bind m k) st b fin.
Proof.
  intros Hm Hk s Hs.
  destruct (Hm s Hs) as (s1 & Hrun & Hs1).
  destruct (Hk s1 Hs1) as (s2 & Hrun2 & Hs2).
  exists s2. unfold bind. by rewrite Hrun.
Qed.

Lemma raises_bind {A B} (m : M A) (k : A -> M B) (st mid fin : state) (a : A) (e : exn) :
  returns m st a mid -> raises (k a) mid e fin -> raises (bind m k) st e fin.
Proof.
  intros Hm Hk s Hs.
  destruct (Hm s Hs) as (s1 & Hrun & Hs1).
  destruct (Hk s1 Hs1) as (s2 & Hrun2 & Hs2).
  exists s2. unfold bind. by rewrite Hrun.
Qed.

Lemma raises_first {A B} (m : M A) (k : A -> M B) (st fin : state) (e : exn) :
  raises m st e fin -> raises (bind m k) st e fin.
Proof.
  intros Hm s Hs. destruct (Hm s Hs) as (s1 & Hrun & Hs1).
  exists s1. unfold bind. by rewrite Hrun.
Qed.

Lemma returns_pointer (st : state) : returns (gets pointer) st (pointer (self st)) st.
Proof. intros s Hs. exists s. unfold gets. by rewrite (sv_pointer _ _ Hs). Qed.

Lemma returns_relative_base (st : state) :
  returns (gets relative_base) st (relative_base (self st)) st.
Proof. intros s Hs. exists s. unfold gets. by rewrite (sv_relative_base _ _ Hs). Qed.

Lemma returns_output (st : state) : returns (gets output) st (output (self st)) st.
Proof. intros s Hs. exists s. unfold gets. by rewrite (sv_output _ _ Hs). Qed.

Lemma returns_debug (st : state) : returns (gets debug) st (debug (self st)) st.
Proof. intros s Hs. exists s. unfold gets. by rewrite (sv_debug _ _ Hs). Qed.

Lemma returns_getitem (k : Z) (st : state) :
  returns (getitem k) st (peek k (self st)) st.
Proof.
  intros s Hs. exists (touch k s). rewrite getitem_spec, (sv_peek _ _ Hs).
  split; [done|]. eapply same_view_trans; [exact Hs | apply touch_same_view].
Qed.

Lemma same_view_poke (k v : Z) (st s : state) :
  same_view st s -> same_view (poke k v st) (poke k v s).
Proof.
  intros Hs. constructor.
  - intros a. rewrite !peek_poke. by rewrite (sv_peek _ _ Hs).
  - cbn. apply insert_mono, Hs.
  - apply Hs.
  - apply Hs.
  - apply Hs.
  - apply Hs.
  - apply Hs.
  - apply Hs.
  - apply Hs.
  - cbn. by rewrite (sv_stores _ _ Hs).
Qed.

Lemma same_view_modify (f : IntcodeComputer -> IntcodeComputer) (st s : state) :
  (forall c, program (f c) = program c) ->
  (forall c c', output c' = output c -> output (f c') = output (f c)) ->
  (forall c c', pointer c' = pointer c -> pointer (f c') = pointer (f c)) ->
  (forall c c', interactive c' = interactive c -> interactive (f c') = interactive (f c)) ->
  (forall c c', inputs c' = inputs c -> inputs (f c') = inputs (f c)) ->
  (forall c c', relative_base c' = relative_base c ->
                relative_base (f c') = relative_base (f c)) ->
  (forall c c', debug c' = debug c -> debug (f c') = debug (f c)) ->
  same_view st s -> same_view (snd (modify f st)) (snd (modify f s)).
Proof.
  intros Hprog Hout Hptr Hint Hin Hrb Hdbg Hs. constructor; cbn.
  - intros a. unfold peek. rewrite !Hprog. apply (sv_peek _ _ Hs).
  - rewrite !Hprog. apply Hs.
  - apply Hout, Hs.
  - apply Hptr, Hs.
  - apply Hint, Hs.
  - apply Hin, Hs.
  - apply Hrb, Hs.
  - apply Hdbg, Hs.
  - apply Hs.
  - apply Hs.
Qed.

Lemma returns_setitem (k v : Z) (st : state) :
  returns (setitem k v) st tt (poke k v st).
Proof.
  intros s Hs. exists (poke k v s). split; [done | by apply same_view_poke].
Qed.

Lemma returns_goto (p : Z) (st : state) :
  returns (modify (with_pointer p)) st tt (goto p st).
Proof.
  intros s Hs. exists (goto p s). split; [done|].
  by apply same_view_modify.
Qed.

Lemma returns_rebase (r : Z) (st : state) :
  returns (modify (with_relative_base r)) st tt (rebase r st).
Proof.
  intros s Hs. exists (rebase r s). split; [done|].
  by apply same_view_modify.
Qed.

Lemma returns_emit (a : Z) (st : state) :
  returns (modify (with_output (output (self st) ++ [a]))) st tt (emit a st).
Proof.
  intros s Hs. eexists. split; [done|].
  by apply same_view_modify.
Qed.

Lemma returns_get_value (i : Instruction) (st : state) :
  valid_mode (mode i) -> returns (get_value i) st (resolve (self st) i) st.
Proof.
  intros Hm. unfold get_value, resolve.
  destruct Hm as [-> | [-> | ->]]; cbn [Z.eqb Pos.eqb].
  - apply returns_getitem.
  - apply returns_ret.
  - eapply returns_bind; [apply returns_relative_base | apply returns_getitem].
Qed.

Lemma raises_get_value (i : Instruction) (st : state) :
  ~ valid_mode (mode i) -> raises (get_value i) st (ValueError_invalid_mode i) st.
Proof.
  intros Hm s Hs. exists s. split; [|done].
  unfold get_value, valid_mode in *.
  destruct (Z.eqb_spec (mode i) 0); [tauto|].
  destruct (Z.eqb_spec (mode i) 1); [tauto|].
  destruct (Z.eqb_spec (mode i) 2); [tauto|]. done.
Qed.

Lemma returns_get_write_value (i : Instruction) (st : state) :
  returns (get_write_value i) st (target (self st) i) st.
Proof.
  unfold get_write_value, target. destruct (mode i =? 2).
  - eapply returns_bind; [apply returns_relative_base | apply returns_ret].
  - apply returns_ret.
Qed.

Lemma returns_comprehension_getitem (l : list Z) (st : state) :
  returns (comprehension l getitem) st (map (fun k => peek k (self st)) l) st.
Proof.
  intros s Hs.
  destruct (comprehension_getitem l s) as (s' & Hrun & Hs').
  exists s'. rewrite Hrun. split.
  - do 2 f_equal. apply map_ext. intros a. apply (sv_peek _ _ Hs).
  - by eapply same_view_trans.
Qed.

Lemma returns_dump (st : state) :
  program (self st) <> ∅ ->
  returns (if debug (self st) then dump else ret tt) st tt st.
Proof.
  intros Hne s Hs. rewrite <- (sv_debug _ _ Hs).
  destruct (debug (self s)); [|by exists s].
  assert (Hne' : program (self s) <> ∅).
  { intros Hempty. apply Hne. apply map_empty. intros k.
    destruct (program (self st) !! k) eqn:Hk; [|done].
    pose proof (lookup_weaken _ _ _ _ Hk (sv_keys _ _ Hs)) as Hk'.
    by rewrite Hempty, lookup_empty in Hk'. }
  destruct (dump_same_view s Hne') as (s' & Hrun & Hs').
  exists s'. split; [done | by eapply same_view_trans].
Qed.

Lemma bind_returns {A B} (m : M A) (k : A -> M B) (st mid : state) (a : A) :
  returns m st a mid ->
  forall s, same_view st s -> exists s1, same_view mid s1 /\ bind m k s = k a s1.
Proof.
  intros Hm s Hs. destruct (Hm s Hs) as (s1 & Hrun & Hs1).
  exists s1. split; [done|]. unfold bind. by rewrite Hrun.
Qed.

Ltac peel lem :=
  match goal with
  | Hs : same_view ?st ?s |- context [bind ?m ?k ?s] =>
    let s' := fresh "s" in
    let Hs' := fresh "Hs" in
    let E := fresh "E" in
    destruct (bind_returns m k st st _ lem s Hs) as (s' & Hs' & E);
    rewrite E; clear E Hs; cbv beta
  end.

Lemma range_two (a : Z) : Py.range (a + 1) (a + 1 + 2) = [a + 1; a + 2].
Proof.
  unfold Py.range. replace (a + 1 + 2 - (a + 1)) with 2 by lia.
  unfold seqZ. change (Z.to_nat 2) with 2%nat. cbn [seq fmap list_fmap].
  repeat (f_equal; try lia).
Qed.

Lemma range_three (a : Z) : Py.range (a + 1) (a + 1 + 3) = [a + 1; a + 2; a + 3].
Proof.
  unfold Py.range. replace (a + 1 + 3 - (a + 1)) with 3 by lia.
  unfold seqZ. change (Z.to_nat 3) with 3%nat. cbn [seq fmap list_fmap].
  repeat (f_equal; try lia).
Qed.

Lemma valid_word_nonempty (st : state) (op m0 m1 m2 : Z) :
  parse_opcode (peek (pointer (self st)) (self st)) = Ok (op, m0, m1, m2) ->
  op ∈ valid_opcodes ->
  program (self st) <> ∅.
Proof.
  intros Hparse Hop Hempty. unfold peek in Hparse.
  rewrite Hempty, lookup_empty in Hparse. cbn in Hparse.
  injection Hparse as <- _ _ _.
  revert Hop. unfold valid_opcodes. rewrite !elem_of_cons, elem_of_nil.
  intros Hop. repeat destruct Hop as [Hop|Hop]; done.
Qed.

Lemma num_parameters_cases (op n : Z) :
  op <> 99 -> num_parameters op = Ok n -> n = 1 \/ n = 2 \/ n = 3.
Proof.
  intros H99. unfold num_parameters.
  destruct (Z.eqb_spec op 99); [done|].
  repeat (destruct (bool_decide _); [intros [= <-]; auto|]).
  discriminate.
Qed.

(** Fetching and decoding: on any state with the view of [st], the loop
    body reaches [execute_opcode] with the operands read after the
    pointer, in a state that still has the view of [st]. *)
Lemma execute_next_fetch (st : state) (op m0 m1 m2 n : Z) :
  parse_opcode (peek (pointer (self st)) (self st)) = Ok (op, m0, m1, m2) ->
  op ∈ valid_opcodes -> op <> 99 -> num_parameters op = Ok n ->
  forall s, same_view st s ->
    exists s', same_view st s'
      /\ execute_next s
         = finish n (execute_opcode op (operands (self st) n m0 m1 m2)) s'.
Proof.
  intros Hparse Hop H99 Hn s Hs.
  pose proof (valid_word_nonempty st op m0 m1 m2 Hparse Hop) as Hne.
  unfold execute_next.
  peel (returns_pointer st). peel (returns_getitem (pointer (self st)) st).
  rewrite Hparse.
  peel (returns_lift (op, m0, m1, m2) st). cbv beta iota.
  rewrite (bool_decide_eq_true_2 _ Hop). cbn [negb].
  rewrite (proj2 (Z.eqb_neq op 99) H99), Hn.
  peel (returns_lift n st). peel (returns_pointer st).
  unfold slice_program.
  destruct (num_parameters_cases op n H99 Hn) as [-> | [-> | ->]].
  - rewrite range_one.
    peel (returns_comprehension_getitem [pointer (self st) + 1] st).
    cbn [map].
    change (comprehension (Py.enumerate [?c1]) ?f)
      with (fun s : state => (Ok [mkInstruction c1 m0], s)).
    unfold bind at 1. cbv beta iota.
    peel (returns_debug st). peel (returns_dump st Hne).
    eexists. split; [eassumption | reflexivity].
  - rewrite range_two.
    peel (returns_comprehension_getitem [pointer (self st) + 1; pointer (self st) + 2] st).
    cbn [map].
    change (comprehension (Py.enumerate [?c1; ?c2]) ?f)
      with (fun s : state => (Ok [mkInstruction c1 m0; mkInstruction c2 m1], s)).
    unfold bind at 1. cbv beta iota.
    peel (returns_debug st). peel (returns_dump st Hne).
    eexists. split; [eassumption | reflexivity].
  - rewrite range_three.
    peel (returns_comprehension_getitem
            [pointer (self st) + 1; pointer (self st) + 2; pointer (self st) + 3] st).
    cbn [map].
    change (comprehension (Py.enumerate [?c1; ?c2; ?c3]) ?f)
      with (fun s : state =>
              (Ok [mkInstruction c1 m0; mkInstruction c2 m1; mkInstruction c3 m2], s)).
    unfold bind at 1. cbv beta iota.
    peel (returns_debug st). peel (returns_dump st Hne).
    eexists. split; [eassumption | reflexivity].
Qed.

Lemma execute_next_returns (st fin : state) (op m0 m1 m2 n : Z) (b : bool) :
  parse_opcode (peek (pointer (self st)) (self st)) = Ok (op, m0, m1, m2) ->
  op ∈ valid_opcodes -> op <> 99 -> num_parameters op = Ok n ->
  returns (finish n (execute_opcode op (operands (self st) n m0 m1 m2))) st b fin ->
  exists st', execute_next st = (Ok b, st') /\ same_view fin st'.
Proof.
  intros Hparse Hop H99 Hn Hret.
  destruct (execute_next_fetch st op m0 m1 m2 n Hparse Hop H99 Hn st (same_view_refl st))
    as (s & Hs & ->).
  apply Hret, Hs.
Qed.

Lemma execute_next_raises (st fin : state) (op m0 m1 m2 n : Z) (e : exn) :
  parse_opcode (peek (pointer (self st)) (self st)) = Ok (op, m0, m1, m2) ->
  op ∈ valid_opcodes -> op <> 99 -> num_parameters op = Ok n ->
  raises (finish n (execute_opcode op (operands (self st) n m0 m1 m2))) st e fin ->
  exists st', execute_next st = (Raise e, st') /\ same_view fin st'.
Proof.
  intros Hparse Hop H99 Hn Hret.
  destruct (execute_next_fetch st op m0 m1 m2 n Hparse Hop H99 Hn st (same_view_refl st))
    as (s & Hs & ->).
  apply Hret, Hs.
Qed.

Ltac valid_opcode := unfold valid_opcodes; rewrite !elem_of_cons; tauto.

Ltac returns_step :=
  first
    [ apply returns_ret
    | apply returns_lift
    | apply returns_get_value; assumption
    | apply returns_get_write_value
    | apply returns_setitem
    | apply returns_pointer
    | apply returns_relative_base
    | apply returns_output
    | apply returns_goto
    | apply returns_rebase
    | apply returns_emit
    | eapply returns_bind; [|cbv beta] ].

(** ** What each instruction does *)

Lemma binary_returns (st : state) (op : Z) (i0 i1 i2 : Instruction) :
  op = 1 \/ op = 2 \/ op = 7 \/ op = 8 ->
  valid_mode (mode i0) -> valid_mode (mode i1) ->
  returns (finish 3 (execute_opcode op [i0; i1; i2])) st false
    (skip 4 (poke (target (self st) i2)
                  (alu op (resolve (self st) i0) (resolve (self st) i1)) st)).
Proof.
  intros Hop H0 H1. unfold finish.
  destruct Hop as [-> | [-> | [-> | ->]]]; unfold execute_opcode;
    cbn [Z.eqb Pos.eqb]; repeat returns_step.
Qed.



Lemma output_returns (st : state) (i0 : Instruction) :
  valid_mode (mode i0) ->
  returns (finish 1 (execute_opcode 4 [i0])) st false
    (skip 2 (emit (resolve (self st) i0) st)).
Proof.
  intros H0. unfold finish, execute_opcode. cbn [Z.eqb Pos.eqb].
  repeat returns_step.
Qed.



Lemma jump_taken_returns (st : state) (op : Z) (i0 i1 : Instruction) :
  op = 5 \/ op = 6 ->
  valid_mode (mode i0) -> valid_mode (mode i1) ->
  jumps op (resolve (self st) i0) = true ->
  returns (finish 2 (execute_opcode op [i0; i1])) st false
    (goto (resolve (self st) i1) st).
Proof.
  intros Hop H0 H1 Hj. unfold finish.
  destruct Hop as [-> | ->]; unfold execute_opcode, jumps in *;
    cbn [Z.eqb Pos.eqb] in *;
    (eapply returns_bind; [eapply returns_bind; [returns_step|]; cbv beta;
       eapply returns_bind; [returns_step|]; cbv beta; rewrite Hj;
       repeat returns_step|]); cbv beta iota; repeat returns_step.
Qed.

Lemma jump_not_taken_returns (st : state) (op : Z) (i0 i1 : Instruction) :
  op = 5 \/ op = 6 ->
  valid_mode (mode i0) ->
  jumps op (resolve (self st) i0) = false ->
  returns (finish 2 (execute_opcode op [i0; i1])) st false (skip 3 st).
Proof.
  intros Hop H0 Hj. unfold finish.
  destruct Hop as [-> | ->]; unfold execute_opcode, jumps in *;
    cbn [Z.eqb Pos.eqb] in *;
    (eapply returns_bind; [eapply returns_bind; [returns_step|]; cbv beta;
       eapply returns_bind; [returns_step|]; cbv beta; rewrite Hj;
       repeat returns_step|]); cbv beta iota; repeat returns_step.
Qed.



Lemma rebase_returns (st : state) (i0 : Instruction) :
  valid_mode (mode i0) ->
  returns (finish 1 (execute_opcode 9 [i0])) st false
    (skip 2 (rebase (relative_base (self st) + resolve (self st) i0) st)).
Proof.
  intros H0. unfold finish, execute_opcode. cbn [Z.eqb Pos.eqb].
  repeat returns_step.
Qed.



Lemma returns_get_input (st : state) (x : Z) :
  fst (get_input st) = Ok x -> returns get_input st x (snd (get_input st)).
Proof.
  intros Hx s Hs. unfold get_input in *.
  rewrite (sv_interactive _ _ Hs), (sv_stdin _ _ Hs), (sv_inputs _ _ Hs).
  destruct (interactive (self st)).
  - destruct (stdin st) as [|y rest]; cbn in Hx; [discriminate|].
    injection Hx as ->. eexists. split; [reflexivity|].
    cbn [snd]. constructor; cbn; try done; apply Hs.
  - destruct (inputs (self st)) as [|y rest]; cbn in Hx; [discriminate|].
    injection Hx as ->. eexists. split; [reflexivity|].
    cbn [snd]. constructor; cbn; try done; apply Hs.
Qed.

Lemma raises_get_input (st : state) (e : exn) :
  fst (get_input st) = Raise e -> raises get_input st e st.
Proof.
  intros He s Hs. unfold get_input in *.
  rewrite (sv_interactive _ _ Hs), (sv_stdin _ _ Hs), (sv_inputs _ _ Hs).
  destruct (interactive (self st)).
  - destruct (stdin st) as [|y rest]; cbn in He; [|discriminate].
    injection He as <-. by exists s.
  - destruct (inputs (self st)) as [|y rest]; cbn in He; [|discriminate].
    injection He as <-. by exists s.
Qed.

Lemma input_returns (st : state) (i0 : Instruction) (x : Z) :
  fst (get_input st) = Ok x ->
  returns (finish 1 (execute_opcode 3 [i0])) st false
    (skip 2 (poke (target (self (snd (get_input st))) i0) x (snd (get_input st)))).
Proof.
  intros Hx. unfold finish, execute_opcode. cbn [Z.eqb Pos.eqb].
  eapply returns_bind.
  { eapply returns_bind; [by apply returns_get_input|]. cbv beta.
    repeat returns_step. }
  cbv beta iota. repeat returns_step.
Qed.



(** ** Invalid operand modes *)

Ltac raises_first_operand :=
  repeat
    first
      [ solve [apply raises_first; apply raises_get_value; assumption]
      | eapply raises_bind; [solve [returns_step] | cbv beta] ].

Lemma invalid_first_raises (st : state) (op n : Z) (i0 : Instruction)
    (rest : list Instruction) :
  op ∈ [1; 2; 4; 5; 6; 7; 8; 9] ->
  ~ valid_mode (mode i0) ->
  raises (finish n (execute_opcode op (i0 :: rest))) st (ValueError_invalid_mode i0) st.
Proof.
  rewrite !elem_of_cons, elem_of_nil. intros Hop H0.
  unfold finish. apply raises_first.
  destruct Hop as [-> | [-> | [-> | [-> | [-> | [-> | [-> | [-> | []]]]]]]]];
    unfold execute_opcode; cbn [Z.eqb Pos.eqb];
    change (item (i0 :: rest) 0) with (Ok i0); raises_first_operand.
Qed.



(** ** Halting *)

Lemma never_true_bind {A} (m : M A) (k : A -> M bool) (st st' : state) :
  (forall a s, k a s <> (Ok true, st')) -> bind m k st <> (Ok true, st').
Proof.
  intros Hk. unfold bind. destruct (m st) as [[a|e|] s]; [apply Hk | done | done].
Qed.

Lemma touch_idem (k : Z) (st : state) : touch k (touch k st) = touch k st.
Proof.
  unfold touch at 1. unfold getitem. by rewrite touch_lookup.
Qed.

Lemma execute_next_halts (st : state) (m0 m1 m2 : Z) :
  parse_opcode (peek (pointer (self st)) (self st)) = Ok (99, m0, m1, m2) ->
  execute_next st = (Ok true, touch (pointer (self st)) st).
Proof.
  intros Hparse. unfold execute_next, bind at 1, gets.
  unfold bind at 1. rewrite getitem_spec.
  unfold bind at 1, lift. by rewrite Hparse.
Qed.

Lemma execute_next_true_inv (st st' : state) :
  execute_next st = (Ok true, st') ->
  st' = touch (pointer (self st)) st
  /\ exists m0 m1 m2,
       parse_opcode (peek (pointer (self st)) (self st)) = Ok (99, m0, m1, m2).
Proof.
  unfold execute_next, bind at 1, gets.
  unfold bind at 1. rewrite getitem_spec.
  unfold bind at 1, lift.
  destruct (parse_opcode (peek (pointer (self st)) (self st)))
    as [[[[op m0] m1] m2]|e|]; [|done|done].
  destruct (bool_decide (op ∈ valid_opcodes)); cbn [negb]; [|done].
  destruct (Z.eqb_spec op 99) as [->|Hne].
  - intros [= <-]. split; [done|]. by exists m0, m1, m2.
  - intros Hrun. exfalso. revert Hrun.
    repeat (apply never_true_bind; intros ? ?). done.
Qed.

Lemma execute_next_halted_again (st st' : state) :
  execute_next st = (Ok true, st') -> execute_next st' = (Ok true, st').
Proof.
  intros Hrun. apply execute_next_true_inv in Hrun as (-> & m0 & m1 & m2 & Hparse).
  pose proof (touch_same_view (pointer (self st)) st) as Hv.
  rewrite (execute_next_halts _ m0 m1 m2).
  - by rewrite (sv_pointer _ _ Hv), touch_idem.
  - by rewrite (sv_pointer _ _ Hv), (sv_peek _ _ Hv).
Qed.

Lemma run_loop_halted (fuel : nat) (limit : bool) (n : option Z) (orig : Z) :
  forall st st',
    run_loop fuel limit n orig st = (Ok true, st') ->
    execute_next st' = (Ok true, st').
Proof.
  induction fuel as [|fuel IH]; intros st st'; [discriminate|].
  cbn [run_loop]. unfold bind at 1, step, bind at 1.
  destruct (execute_next st) as [[[|]|e|] st1] eqn:Hnext; try discriminate.
  - intros [= <-]. by apply execute_next_halted_again in Hnext.
  - unfold bind at 1, gets.
    destruct (limit && _); [discriminate|]. apply IH.
Qed.

(** X17.  At a halt instruction (opcode 99) [run] returns "halted" at
    once, under any bound, having only fetched the word: the pointer stays
    on the halt instruction and nothing the machine shows has changed. *)
Theorem halt_returns_true (st : state) (fuel : nat) (num_outputs : option Z)
    (m0 m1 m2 : Z) :
  parse_opcode (peek (pointer (self st)) (self st)) = Ok (99, m0, m1, m2) ->
  run (S fuel) num_outputs st = (Ok true, touch (pointer (self st)) st)
  /\ same_view st (touch (pointer (self st)) st).
Proof.
  intros Hparse. split; [|apply touch_same_view].
  rewrite run_unfold. cbn [run_loop]. unfold bind at 1, step, bind at 1.
  by rewrite (execute_next_halts st m0 m1 m2 Hparse).
Qed.

Lemma halt_returns_true_witness :
  run 1 (Some 5) (boot [99] None) = (Ok true, touch 0 (boot [99] None))
  /\ same_view (boot [99] None) (touch 0 (boot [99] None)).
Proof.
  apply (halt_returns_true (boot [99] None) 0 (Some 5) 0 0 0).
  vm_compute. reflexivity.
Defined.

(** X18.  A halted machine stays halted: once [run] has returned
    "halted", every later [run], under any bound, returns "halted" again
    and leaves the machine exactly as it is. *)
Theorem halted_stays_halted (fuel fuel' : nat) (n n' : option Z) (st st' : state) :
  run fuel n st = (Ok true, st') ->
  run (S fuel') n' st' = (Ok true, st').
Proof.
  rewrite run_unfold. intros Hrun.
  apply run_loop_halted in Hrun.
  rewrite run_unfold. cbn [run_loop]. unfold bind at 1, step, bind at 1.
  by rewrite Hrun.
Qed.

Lemma halted_stays_halted_witness :
  run 1 (Some 3) (snd (run 10 None (boot [1; 0; 0; 0; 99] None)))
  = (Ok true, snd (run 10 None (boot [1; 0; 0; 0; 99] None))).
Proof.
  apply (halted_stays_halted 10 0 None (Some 3) (boot [1; 0; 0; 0; 99] None)).
  vm_compute. reflexivity.
Defined.

(** ** The exceptions of a run *)

Lemma length_zeros (n : nat) : String.length (Py.zeros n) = n.
Proof. induction n as [|n IH]; [done|]. cbn [Py.zeros String.length]. by rewrite IH. Qed.

Lemma length_append (s1 s2 : string) :
  String.length (s1 ++ s2) = (String.length s1 + String.length s2)%nat.
Proof.
  induction s1 as [|c s1 IH]; [done|].
  change (String c s1 ++ s2)%string with (String c (s1 ++ s2)).
  cbn [String.length Nat.add]. by rewrite IH.
Qed.

Lemma zfill_length (width : nat) (s : string) :
  (width <= String.length (Py.zfill width s))%nat.
Proof.
  unfold Py.zfill.
  destruct (width - String.length s)%nat as [|fill] eqn:Hfill; [lia|].
  destruct s as [|c r].
  - rewrite length_zeros. cbn in Hfill. lia.
  - destruct (Ascii.eqb c "-" || Ascii.eqb c "+")%bool.
    + cbn [String.length] in *. rewrite length_append, length_zeros. lia.
    + rewrite length_append, length_zeros. cbn [String.length] in *. lia.
Qed.

Lemma get_in_range (s : string) :
  forall i : nat, (i < String.length s)%nat -> exists c, String.get i s = Some c.
Proof.
  induction s as [|c s IH]; intros i Hi; cbn in Hi; [lia|].
  destruct i as [|i]; cbn; [by eexists|]. apply IH. lia.
Qed.

Lemma index_char_padded (i : nat) (s : string) :
  (i < 5)%nat -> exists c, index_char i (Py.zfill 5 s) = Ok (String c EmptyString).
Proof.
  intros Hi. unfold index_char.
  destruct (get_in_range (Py.zfill 5 s) i) as [c ->]; [|by exists c].
  pose proof (zfill_length 5 s). lia.
Qed.

Lemma parse_opcode_raises (w : Z) (e : exn) :
  parse_opcode w = Raise e -> queued_run_error e.
Proof.
  unfold parse_opcode, str_of.
  destruct (Py.str_limited w) as [text|]; cbn [rbind]; [|by intros [= <-]].
  destruct (index_char_padded 0 text) as [c0 ->]; [lia|].
  destruct (index_char_padded 1 text) as [c1 ->]; [lia|].
  destruct (index_char_padded 2 text) as [c2 ->]; [lia|].
  unfold int_of.
  repeat (match goal with
          | |- context [Py.int ?s] => destruct (Py.int s); cbn [rbind]
          end; [|by intros [= <-]]).
  discriminate.
Qed.

Lemma guarded_ret (E : exn -> Prop) {A} (a : A) : guarded E (ret a).
Proof. by intros st Hq. Qed.

Lemma guarded_lift (E : exn -> Prop) {A} (a : A) : guarded E (lift (Ok a)).
Proof. by intros st Hq. Qed.

Lemma guarded_gets (E : exn -> Prop) {A} (f : IntcodeComputer -> A) :
  guarded E (gets f).
Proof. by intros st Hq. Qed.

Lemma guarded_modify (E : exn -> Prop) (f : IntcodeComputer -> IntcodeComputer) :
  (forall c, interactive (f c) = interactive c) -> guarded E (modify f).
Proof. intros Hf st Hq. unfold queued in *. cbn. by rewrite Hf. Qed.

Lemma guarded_getitem (E : exn -> Prop) (k : Z) : guarded E (getitem k).
Proof.
  intros st Hq. rewrite getitem_spec. unfold queued in *.
  by rewrite (sv_interactive _ _ (touch_same_view k st)).
Qed.

Lemma guarded_setitem (E : exn -> Prop) (k v : Z) : guarded E (setitem k v).
Proof. by intros st Hq. Qed.

Lemma guarded_bind (E : exn -> Prop) {A B} (m : M A) (k : A -> M B) :
  guarded E m -> (forall a, guarded E (k a)) -> guarded E (bind m k).
Proof.
  intros Hm Hk st Hq. unfold bind. specialize (Hm st Hq).
  destruct (m st) as [[a|e|] s]; [by apply Hk | done | done].
Qed.

Lemma guarded_get_value (i : Instruction) : guarded queued_run_error (get_value i).
Proof.
  unfold get_value.
  destruct (mode i =? 0); [apply guarded_getitem|].
  destruct (mode i =? 1); [apply guarded_ret|].
  destruct (mode i =? 2).
  - apply guarded_bind; [apply guarded_gets|].
    intros rb. apply guarded_getitem.
  - by intros st Hq.
Qed.

Lemma guarded_get_write_value (E : exn -> Prop) (i : Instruction) :
  guarded E (get_write_value i).
Proof. intros st Hq. by rewrite get_write_value_total. Qed.

(** In queued mode the console is never read: [get_input] can only run
    out of pending inputs. *)
Lemma guarded_get_input : guarded queued_run_error get_input.
Proof.
  intros st Hq. unfold get_input. unfold queued in Hq. rewrite Hq.
  by destruct (inputs (self st)).
Qed.

Ltac guarded_step :=
  first
    [ apply guarded_ret
    | apply guarded_lift
    | apply guarded_gets
    | apply guarded_modify; intros ?; reflexivity
    | apply guarded_getitem
    | apply guarded_setitem
    | apply guarded_get_value
    | apply guarded_get_write_value
    | apply guarded_get_input
    | apply guarded_bind; [|intros ?]
    | match goal with
      | |- guarded _ (if ?b then _ else _) => destruct b
      end ].

Lemma execute_opcode_guarded (op n : Z) (i0 i1 i2 : Instruction) :
  op ∈ valid_opcodes -> op <> 99 -> num_parameters op = Ok n ->
  guarded queued_run_error
    (finish n (execute_opcode op (take (Z.to_nat n) [i0; i1; i2]))).
Proof.
  intros Hop H99 Hn. unfold finish.
  destruct (valid_opcodes_cases op Hop)
    as [->|[->|[->|[->|[->|[->|[->|[->|[->| ->]]]]]]]]];
    try done; injection Hn as <-;
    unfold execute_opcode; cbn [Z.eqb Pos.eqb Z.to_nat Pos.to_nat Pos.iter_op take
                                  Nat.add];
    repeat guarded_step.
Qed.

Lemma execute_next_guarded : guarded queued_run_error execute_next.
Proof.
  intros st Hq.
  destruct (parse_opcode (peek (pointer (self st)) (self st)))
    as [[[[op m0] m1] m2]|e0|] eqn:Hparse.
  - destruct (decide (op ∈ valid_opcodes)) as [Hop|Hop].
    + destruct (decide (op = 99)) as [->|H99].
      { rewrite (execute_next_halts st m0 m1 m2 Hparse). unfold queued in *.
        by rewrite (sv_interactive _ _ (touch_same_view (pointer (self st)) st)). }
      destruct (proj1 (num_parameters_valid op) Hop) as (n & Hn & _).
      destruct (execute_next_fetch st op m0 m1 m2 n Hparse Hop H99 Hn st
                  (same_view_refl st)) as (s & Hs & ->).
      apply (execute_opcode_guarded op n _ _ _ Hop H99 Hn).
      unfold queued in *. by rewrite (sv_interactive _ _ Hs).
    + by rewrite (execute_next_invalid_opcode st op m0 m1 m2 Hparse Hop).
  - unfold execute_next, bind at 1, gets.
    unfold bind at 1. rewrite getitem_spec.
    unfold bind at 1, lift. rewrite Hparse.
    by apply (parse_opcode_raises _ _ Hparse).
  - unfold execute_next, bind at 1, gets.
    unfold bind at 1. rewrite getitem_spec.
    unfold bind at 1, lift. by rewrite Hparse.
Qed.

Lemma run_loop_guarded (fuel : nat) (limit : bool) (n : option Z) (orig : Z) :
  guarded queued_run_error (run_loop fuel limit n orig).
Proof.
  induction fuel as [|fuel IH]; [by intros st Hq|].
  cbn [run_loop]. apply guarded_bind; [|intros [b|]; [apply guarded_ret | apply IH]].
  unfold step. apply guarded_bind; [apply execute_next_guarded|].
  intros halted. destruct halted; [apply guarded_ret|].
  apply guarded_bind; [apply guarded_gets|].
  intros out. destruct (limit && _); apply guarded_ret.
Qed.

(** X19.  On a machine in queued mode with the debug flag off, a [run]
    can end only with one of five exceptions: the digit-limit [ValueError]
    of [str] on a word of more than 4300 digits, the invalid-literal
    [ValueError] of [int] on a negative word, the invalid-opcode
    [ValueError] of [run], the invalid-mode [ValueError], or
    [StopIteration].  It never reads the console, never raises
    [IndexError] on its operand or mode lists, never the [ValueError] of
    [num_parameters], and no [TypeError] or [RuntimeError].  (With the
    debug flag on, [run] also prints the machine, and the text of that
    dump is not modelled.) *)
Theorem run_raises_only (fuel : nat) (num_outputs : option Z) (st st' : state)
    (e : exn) :
  interactive (self st) = false ->
  debug (self st) = false ->
  run fuel num_outputs st = (Raise e, st') ->
  queued_run_error e.
Proof.
  intros Hq _ Hrun. rewrite run_unfold in Hrun.
  pose proof (run_loop_guarded fuel (Py.truthy num_outputs) num_outputs
                (Z.of_nat (length (output (self st)))) st Hq) as Hguard.
  by rewrite Hrun in Hguard.
Qed.

Lemma run_raises_only_witness :
  queued_run_error (ValueError_invalid_mode (mkInstruction 7 3)).
Proof.
  apply (run_raises_only 1 None (init [304; 7; 99] None true false [])
           (snd (run 1 None (init [304; 7; 99] None true false [])))).
  - reflexivity.
  - reflexivity.
  - vm_compute. reflexivity.
Defined.

(** ** Negative instruction words *)

Lemma digit_char_is_digit (d : Z) : 0 <= d < 10 -> is_digit (Py.digit_char d) = true.
Proof. intros Hd. unfold is_digit. by rewrite digit_of_digit_char. Qed.

Lemma digits_of_all_digits (fuel : nat) :
  forall (n : Z) (acc : string),
    0 <= n -> all_digits acc = true ->
    all_digits (Py.digits_of fuel n acc) = true
    /\ (String.length acc < String.length (Py.digits_of fuel n acc))%nat.
Proof.
  induction fuel as [|fuel IH]; intros n acc Hn Hacc.
  - cbn [Py.digits_of all_digits String.length].
    rewrite digit_char_is_digit, Hacc by (apply Z.mod_pos_bound; lia). split; [done | lia].
  - cbn [Py.digits_of].
    assert (Hacc' : all_digits (String (Py.digit_char (n mod 10)) acc) = true).
    { cbn [all_digits]. by rewrite digit_char_is_digit, Hacc by (apply Z.mod_pos_bound; lia). }
    destruct (n <? 10).
    + split; [done | cbn [String.length]; lia].
    + destruct (IH (n / 10) (String (Py.digit_char (n mod 10)) acc)) as [Hall Hlen];
        [apply Z.div_pos; lia | done |].
      split; [done|]. cbn [String.length] in Hlen. lia.
Qed.

Lemma all_digits_zeros (n : nat) : all_digits (Py.zeros n) = true.
Proof. induction n as [|n IH]; [done|]. cbn [Py.zeros all_digits]. by rewrite IH. Qed.

Lemma all_digits_append (s1 s2 : string) :
  all_digits s1 = true -> all_digits s2 = true -> all_digits (s1 ++ s2) = true.
Proof.
  intros H1 H2. induction s1 as [|c s1 IH]; [done|].
  change (String c s1 ++ s2)%string with (String c (s1 ++ s2)).
  cbn [all_digits] in *. apply andb_prop in H1 as [Hc H1].
  by rewrite Hc, IH.
Qed.

Lemma padded_negative (w : Z) :
  w < 0 ->
  exists c1 c2 c3 c4 r,
    Py.zfill 5 (Py.str w)
    = String "-" (String c1 (String c2 (String c3 (String c4 r))))
    /\ all_digits (String c1 (String c2 (String c3 (String c4 r)))) = true.
Proof.
  intros Hw. unfold Py.str. destruct (Z.ltb_spec w 0) as [_|?]; [|lia].
  destruct (digits_of_all_digits (Z.to_nat (Z.log2 (- w))) (- w) EmptyString)
    as [Hall Hlen]; [lia | done |].
  set (d := Py.digits_of (Z.to_nat (Z.log2 (- w))) (- w) EmptyString) in *.
  assert (Hpad : exists d', Py.zfill 5 (String "-" d) = String "-" d'
                            /\ all_digits d' = true /\ (4 <= String.length d')%nat).
  { unfold Py.zfill. cbn [String.length].
    destruct (5 - S (String.length d))%nat as [|fill] eqn:Hfill.
    - exists d. split_and!; [done | done | lia].
    - exists (Py.zeros (S fill) ++ d)%string.
      change (Ascii.eqb "-" "-" || Ascii.eqb "-" "+")%bool with true. cbv iota.
      split_and!; [done | |].
      + apply all_digits_append; [apply all_digits_zeros | done].
      + rewrite length_append, length_zeros. lia. }
  destruct Hpad as (d' & -> & Hall' & Hlen').
  destruct d' as [|c1 [|c2 [|c3 [|c4 r]]]]; cbn [String.length] in Hlen'; try lia.
  by exists c1, c2, c3, c4, r.
Qed.

Lemma substring_all (s : string) : substring 0 (String.length s) s = s.
Proof. induction s as [|c s IH]; [done|]. cbn [String.length substring]. by rewrite IH. Qed.

Lemma digits_value_all_digits (s : string) :
  forall acc, all_digits s = true -> exists z, Py.digits_value acc s = Some z.
Proof.
  induction s as [|c s IH]; intros acc Hs; [by eexists|].
  cbn [all_digits Py.digits_value] in *. apply andb_prop in Hs as [Hc Hs].
  unfold is_digit in Hc. destruct (Py.digit_of_ascii c); [|discriminate].
  by apply IH.
Qed.

Lemma int_of_all_digits (c : ascii) (s : string) :
  all_digits (String c s) = true -> exists z, int_of (String c s) = Ok z.
Proof.
  intros Hs. unfold int_of, Py.int.
  assert (Hc : is_digit c = true).
  { cbn [all_digits] in Hs. by apply andb_prop in Hs as [Hc _]. }
  destruct (Ascii.eqb_spec c "-") as [->|_]; [discriminate|].
  destruct (Ascii.eqb_spec c "+") as [->|_]; [discriminate|].
  destruct (digits_value_all_digits (String c s) 0 Hs) as [z ->]. by exists z.
Qed.

Lemma parse_opcode_negative (w : Z) :
  - Py.max_rendered < w < 0 -> parse_opcode w = Raise (ValueError_invalid_literal "-").
Proof.
  intros Hw. unfold parse_opcode, str_of.
  rewrite str_limited_rendered by lia. cbn [rbind].
  destruct (padded_negative w (proj2 Hw)) as (c1 & c2 & c3 & c4 & r & -> & Hall).
  unfold Py.slice_from, index_char.
  cbn [String.length Nat.sub substring String.get]. rewrite substring_all.
  cbn [all_digits] in Hall.
  apply andb_prop in Hall as [H1 Hall]. apply andb_prop in Hall as [H2 Hall].
  destruct (int_of_all_digits c3 (String c4 r)) as [z3 ->]; [done|].
  cbn [rbind].
  destruct (int_of_all_digits c2 EmptyString) as [z2 ->]; [cbn; by rewrite H2|].
  cbn [rbind].
  destruct (int_of_all_digits c1 EmptyString) as [z1 ->]; [cbn; by rewrite H1|].
  reflexivity.
Qed.

(** X20.  A negative instruction word of at most 4300 digits (the most
    [str] renders) does not decode: [parse_opcode] raises the
    invalid-literal [ValueError] on the sign, whatever the digits, so a
    [run] whose pointer is on such a word aborts with that error (not with
    the invalid-opcode one) and nothing the machine shows has changed. *)
Theorem negative_word_aborts (st : state) (fuel : nat) (num_outputs : option Z) :
  - Py.max_rendered < peek (pointer (self st)) (self st) < 0 ->
  parse_opcode (peek (pointer (self st)) (self st))
  = Raise (ValueError_invalid_literal "-")
  /\ run (S fuel) num_outputs st
     = (Raise (ValueError_invalid_literal "-"), touch (pointer (self st)) st)
  /\ same_view st (touch (pointer (self st)) st).
Proof.
  intros Hw. pose proof (parse_opcode_negative _ Hw) as Hparse.
  split_and!; [done | | apply touch_same_view].
  rewrite run_unfold. apply run_loop_raise.
  unfold execute_next, bind at 1, gets.
  unfold bind at 1. rewrite getitem_spec.
  unfold bind at 1, lift. by rewrite Hparse.
Qed.

Lemma negative_word_aborts_witness :
  parse_opcode (-1105) = Raise (ValueError_invalid_literal "-")
  /\ run 1 None (boot [-1105; 1; 7] None)
     = (Raise (ValueError_invalid_literal "-"), touch 0 (boot [-1105; 1; 7] None))
  /\ same_view (boot [-1105; 1; 7] None) (touch 0 (boot [-1105; 1; 7] None)).
Proof.
  apply (negative_word_aborts (boot [-1105; 1; 7] None) 0 None).
  split; vm_compute; reflexivity.
Defined.

(** ** Runs as sequences of instructions *)

Lemma step_unlimited (n n' : option Z) (orig orig' : Z) (st : state) :
  step false n orig st = step false n' orig' st.
Proof.
  unfold step, bind. destruct (execute_next st) as [[[|]|e|] st1]; reflexivity.
Qed.

Lemma run_loop_unlimited (fuel : nat) (n n' : option Z) (orig orig' : Z) :
  forall st, run_loop fuel false n orig st = run_loop fuel false n' orig' st.
Proof.
  induction fuel as [|fuel IH]; intros st; [done|].
  cbn [run_loop]. unfold bind.
  rewrite (step_unlimited n n' orig orig').
  destruct (step false n' orig' st) as [[[b|]|e|] st1]; done.
Qed.

Lemma run_loop_more_fuel (fuel extra : nat) (limit : bool) (n : option Z) (orig : Z) :
  forall (st st' : state) (r : result bool),
    run_loop fuel limit n orig st = (r, st') -> r <> Timeout ->
    run_loop (fuel + extra) limit n orig st = (r, st').
Proof.
  induction fuel as [|fuel IH]; intros st st' r.
  - cbn. by intros [= <- _].
  - cbn [run_loop Nat.add]. unfold bind.
    destruct (step limit n orig st) as [[[b|]|e|] st1]; try done. apply IH.
Qed.

Lemma run_loop_instructions (k : nat) (limit : bool) (n : option Z) (orig : Z) :
  forall (fuel : nat) (st st_k : state),
    instructions k st = Some st_k ->
    (limit = true ->
     forall j st_j, (0 < j <= k)%nat -> instructions j st = Some st_j ->
                    Some (Z.of_nat (length (output (self st_j))) - orig) <> n) ->
    run_loop (k + fuel) limit n orig st = run_loop fuel limit n orig st_k.
Proof.
  induction k as [|k IH]; intros fuel st st_k Hk Hbound.
  - by injection Hk as <-.
  - apply instructions_first in Hk as (st1 & Hnext & Hk).
    cbn [Nat.add run_loop]. unfold bind at 1, step, bind at 1. rewrite Hnext.
    unfold bind at 1, gets.
    assert (Hgo : limit
                  && bool_decide (Some (Z.of_nat (length (output (self st1))) - orig) = n)
                  = false).
    { destruct limit; [|done]. cbn [andb]. apply bool_decide_eq_false_2.
      apply (Hbound eq_refl 1%nat st1); [lia|].
      by rewrite (instructions_succ 0 st st1). }
    rewrite Hgo. unfold ret at 1. apply IH; [done|].
    intros Hlimit j st_j Hj Hinstr.
    apply (Hbound Hlimit (S j) st_j); [lia|].
    by rewrite (instructions_succ j st st1).
Qed.

(** X21.  An unbounded run ([run()] or [run(0)], whose bound counts as
    absent) executes instructions one after the other until the halt
    instruction: if [k] instructions execute without halting or raising
    and the next one halts, [run] with fuel for more than [k] iterations
    returns "halted" in the state that halt instruction leaves. *)
Theorem run_until_halt (k fuel : nat) (num_outputs : option Z)
    (st st_k st' : state) :
  Py.truthy num_outputs = false ->
  instructions k st = Some st_k ->
  execute_next st_k = (Ok true, st') ->
  run (k + S fuel) num_outputs st = (Ok true, st').
Proof.
  intros Hn Hk Hhalt. rewrite run_unfold, Hn.
  rewrite (run_loop_instructions k false _ _ (S fuel) st st_k Hk) by done.
  cbn [run_loop]. unfold bind at 1, step, bind at 1. by rewrite Hhalt.
Qed.

Lemma run_until_halt_witness :
  run (2 + 1) (Some 0) (boot [104; 1; 104; 2; 99] None)
  = (Ok true, snd (run 3 None (boot [104; 1; 104; 2; 99] None))).
Proof.
  apply (run_until_halt 2 0 (Some 0) (boot [104; 1; 104; 2; 99] None)
           (snd (run 2 None (boot [104; 1; 104; 2; 99] None)))).
  - reflexivity.
  - vm_compute. reflexivity.
  - vm_compute. reflexivity.
Defined.

Lemma run_loop_resume (fuel : nat) (N : option Z) (orig : Z) :
  forall (st st1 : state) (fuel' : nat) (n' : option Z) (orig' : Z),
    run_loop fuel true N orig st = (Ok false, st1) ->
    exists k, (k <= fuel)%nat
              /\ run_loop (k + fuel') false n' orig' st
                 = run_loop fuel' false n' orig' st1.
Proof.
  induction fuel as [|fuel IH]; intros st st1 fuel' n' orig'; [discriminate|].
  cbn [run_loop]. unfold bind at 1, step, bind at 1.
  destruct (execute_next st) as [[[|]|e|] s1] eqn:Hnext; try discriminate.
  unfold bind at 1, gets. cbn [andb].
  destruct (bool_decide _).
  - intros [= <-]. exists 1%nat. split; [lia|].
    cbn [Nat.add run_loop]. unfold bind at 1, step, bind at 1. by rewrite Hnext.
  - unfold ret at 1. intros Hrun.
    destruct (IH s1 st1 fuel' n' orig' Hrun) as (k & Hk & Heq).
    exists (S k). split; [lia|].
    cbn [Nat.add run_loop]. unfold bind at 1, step, bind at 1. by rewrite Hnext.
Qed.

(** X22.  Suspension loses nothing: when a bounded run has returned "not
    yet halted" and an unbounded run resumed from that state ends (halts
    or raises), one unbounded run from the original state, given the fuel
    of both, ends the same way in the same state. *)
Theorem resume_equals_uninterrupted (fuel fuel' : nat) (N : option Z)
    (st st1 st2 : state) (r : result bool) :
  run fuel N st = (Ok false, st1) ->
  run fuel' None st1 = (r, st2) ->
  r <> Timeout ->
  run (fuel + fuel') None st = (r, st2).
Proof.
  rewrite !run_unfold. intros Hfirst Hthen Hr.
  pose proof (run_loop_suspended_limit _ _ _ _ _ _ Hfirst) as Hlimit.
  rewrite Hlimit in Hfirst.
  cbn [Py.truthy] in *.
  destruct (run_loop_resume fuel N _ st st1 fuel' None
              (Z.of_nat (length (output (self st)))) Hfirst)
    as (k & Hk & Heq).
  replace (fuel + fuel')%nat with ((k + fuel') + (fuel - k))%nat by lia.
  apply run_loop_more_fuel; [|done].
  rewrite Heq.
  by rewrite (run_loop_unlimited fuel' None None _
                (Z.of_nat (length (output (self st1))))).
Qed.

Lemma resume_equals_uninterrupted_witness :
  run (10 + 10) None (boot [104; 1; 104; 2; 99] None)
  = run 10 None (snd (run 10 (Some 1) (boot [104; 1; 104; 2; 99] None))).
Proof.
  rewrite (resume_equals_uninterrupted 10 10 (Some 1)
             (boot [104; 1; 104; 2; 99] None)
             (snd (run 10 (Some 1) (boot [104; 1; 104; 2; 99] None)))
             (snd (run 10 None (snd (run 10 (Some 1) (boot [104; 1; 104; 2; 99] None)))))
             (Ok true)).
  - vm_compute. reflexivity.
  - vm_compute. reflexivity.
  - vm_compute. reflexivity.
  - discriminate.
Defined.

(** ** When copying is harmless *)

(** X23.  [copy] always returns a machine equal, attribute by attribute,
    to the original as it was before the call, and it leaves the original
    itself untouched exactly when the original has no pending input. *)
Theorem copy_harmless_iff (st : state) :
  fst (copy st) = Ok (self st)
  /\ (snd (copy st) = st <-> inputs (self st) = []).
Proof.
  rewrite copy_spec. split; [done|]. cbn [snd]. split.
  - intros Heq. apply (f_equal (fun s => inputs (self s))) in Heq. by rewrite <- Heq.
  - intros Hin. destruct st as [[prog out ptr int ins rb dbg] console ghost].
    cbn in *. by subst.
Qed.

(** ** Words beyond the digit limit *)

Lemma digits_of_longer (fuel : nat) :
  forall (n : Z) (acc : string),
    (String.length acc < String.length (Py.digits_of fuel n acc))%nat.
Proof.
  induction fuel as [|fuel IH]; intros n acc; cbn [Py.digits_of].
  - cbn [String.length]. lia.
  - destruct (n <? 10); [cbn [String.length]; lia|].
    etrans; [|apply IH]. cbn [String.length]. lia.
Qed.

Lemma digits_of_length_ge (k : nat) :
  forall (fuel : nat) (n : Z) (acc : string),
    10 ^ Z.of_nat k <= n -> (k <= fuel)%nat ->
    (k + 1 + String.length acc <= String.length (Py.digits_of fuel n acc))%nat.
Proof.
  induction k as [|k IH]; intros fuel n acc Hn Hfuel.
  { pose proof (digits_of_longer fuel n acc). lia. }
  destruct fuel as [|fuel]; [lia|].
  rewrite Nat2Z.inj_succ, Z.pow_succ_r in Hn by lia.
  assert (0 < 10 ^ Z.of_nat k) by (apply Z.pow_pos_nonneg; lia).
  rewrite digits_of_large by lia.
  etrans; [|apply IH].
  - cbn [String.length]. lia.
  - apply Z.div_le_lower_bound; lia.
  - lia.
Qed.

(** From the digit limit on [str] refuses. *)
Lemma str_limited_refused (n : Z) :
  Py.max_rendered <= Z.abs n -> Py.str_limited n = None.
Proof.
  intros Hn. unfold Py.str_limited, Py.max_rendered in *.
  assert (Hlen : (Py.int_max_str_digits < String.length (Py.str (Z.abs n)))%nat).
  { unfold Py.str. destruct (Z.ltb_spec (Z.abs n) 0); [lia|].
    pose proof (digits_of_length_ge Py.int_max_str_digits
                  (Z.to_nat (Z.log2 (Z.abs n))) (Z.abs n) EmptyString Hn) as Hge.
    cbn [String.length] in Hge.
    assert (Z.of_nat Py.int_max_str_digits <= Z.log2 (Z.abs n)); [|lia].
    rewrite <- (Z.log2_pow2 (Z.of_nat Py.int_max_str_digits)) by lia.
    apply Z.log2_le_mono. etrans; [|exact Hn].
    apply Z.pow_le_mono_l. lia. }
  by rewrite (proj2 (Nat.leb_gt _ _) Hlen).
Qed.


